(** * File transfer service: storage engine and transfer server

    A shallow embedding of the two Go packages of the repository:

    - package [storage]: the in-memory catalog ([map[string]*pb.FileMetadata])
      and the flat-file blob store behind [SaveFile], [GetFile], [ListFiles];
    - package [server]: the three gRPC handlers [UploadFile], [DownloadFile],
      [ListFiles], their channel-as-semaphore admission control, and [Serve].

    Everything the Go code reads from its environment is an explicit argument
    of the embedded function: the two clock readings of [SaveFile], the
    outcome of the blob write, the order in which the runtime iterates the
    catalog map, the messages a client stream delivers and the outcome of
    every send.  Go's [int] is the 64-bit integer of the build target
    (linux/amd64), [int32] and [int64] are the protobuf field types. *)

From stdpp Require Import gmap strings list fin_maps pretty.
From Stdlib Require Import ZArith Lia.

Local Open Scope Z_scope.

(** ** Go values shared by both packages *)

Definition bytes := list Byte.byte.

(** Two's complement wrap-around of a [bits]-wide signed integer. *)
Definition wrap (bits : Z) (z : Z) : Z :=
  (z + 2 ^ (bits - 1)) mod 2 ^ bits - 2 ^ (bits - 1).

Definition to_int (z : Z) : Z := wrap 64 z.
Definition to_int32 (z : Z) : Z := wrap 32 z.
Definition to_int64 (z : Z) : Z := wrap 64 z.

Definition is_int32 (z : Z) : Prop := - 2 ^ 31 <= z < 2 ^ 31.
Definition is_int64 (z : Z) : Prop := - 2 ^ 63 <= z < 2 ^ 63.

(** [len(x)] as a Go [int]. *)
Definition len {A} (l : list A) : Z := Z.of_nat (length l).

(** The slice expression [data[i:j]]. *)
Definition slice {A} (data : list A) (i j : Z) : list A :=
  take (Z.to_nat (j - i)) (drop (Z.to_nat i) data).

(** gRPC status codes used by the service. *)
Inductive Code := OK | InvalidArgument | NotFound | ResourceExhausted | Internal.

(** Go [error] values that flow through the two packages. *)
Inductive error :=
| EOF                                   (* io.EOF *)
| PathError (op path : string)          (* *os.PathError of WriteFile / ReadFile *)
| StatusError (c : Code) (msg : string) (* status.Error(c, msg) *)
| TransportError (msg : string)         (* a failed Recv / Send on a stream *)
| Wrapped (msg : string) (e : error).   (* fmt.Errorf("...: %w", e) *)

Definition is_EOF (e : error) : bool :=
  match e with EOF => true | _ => false end.

(** How a call ends: it returns a value, returns an error, or the goroutine
    panics. *)
Inductive outcome (A : Type) :=
| Ok (a : A)
| Err (e : error)
| Panic (msg : string).
Arguments Ok {A} a.
Arguments Err {A} e.
Arguments Panic {A} msg.

(** [pb.FileMetadata] *)
Record FileMetadata := {
  Id : string;
  Filename : string;
  Size : Z;
  CreatedAt : Z;
  UpdatedAt : Z
}.

(** [fmt.Sprintf("%d", n)] *)
Definition Sprintf_d (n : Z) : string := pretty n.

(** ** Package storage *)

Module Storage.

(** The directory tree the process writes to: path to file content. *)
Abbreviation fs := (gmap string bytes).

(** What [ioutil.WriteFile] does in one call: it succeeds, or it fails with an
    error having created nothing ([written = None], the open failed) or having
    left the first [k] bytes behind ([written = Some k]). *)
Inductive write_outcome :=
| WriteOk
| WriteFails (e : error) (written : option nat).

Definition WriteFile (o : write_outcome) (path : string) (data : bytes)
    (d : fs) : option error * fs :=
  match o with
  | WriteOk => (None, <[path := data]> d)
  | WriteFails e None => (Some e, d)
  | WriteFails e (Some k) => (Some e, <[path := take k data]> d)
  end.

(** [os.ReadFile]: the content if the path exists. *)
Definition ReadFile (path : string) (d : fs) : outcome bytes :=
  match d !! path with
  | Some b => Ok b
  | None => Err (PathError "open" path)
  end.

(** [type storage struct]; the lock [mu] makes each method below one atomic
    step, so it has no field of its own here. *)
Record storage := {
  directory : string;
  files : gmap string FileMetadata
}.

(** The engine together with the file system it persists to. *)
Record state := {
  engine : storage;
  disk : fs
}.

(** What one [SaveFile] call observes: [time.Now().UnixNano()], the outcome of
    the write, then [time.Now().Unix()]. *)
Record save_env := {
  now_nano : Z;
  write : write_outcome;
  now_unix : Z
}.

Definition NewStorage (directory : string) : storage :=
  {| directory := directory; files := ∅ |}.

Section WithJoin.

(** [filepath.Join] of the directory and one element. *)
Variable Join : string → string → string.

Definition SaveFile (env : save_env) (filename : string) (data : bytes)
    (st : state) : outcome string * state :=
  let s := engine st in
  let id := Sprintf_d (now_nano env) in
  let filepath := Join (directory s) id in
  match WriteFile (write env) filepath data (disk st) with
  | (Some err, d) => (Err err, {| engine := s; disk := d |})
  | (None, d) =>
      let now := now_unix env in
      let metadata :=
        {| Id := id;
           Filename := filename;
           Size := to_int64 (len data);
           CreatedAt := now;
           UpdatedAt := now |} in
      (Ok id,
       {| engine := {| directory := directory s;
                       files := <[id := metadata]> (files s) |};
          disk := d |})
  end.

Definition GetFile (id : string) (st : state) : outcome bytes :=
  let filepath := Join (directory (engine st)) id in
  ReadFile filepath (disk st).

End WithJoin.

(** The body of [for _, file := range s.files] over the entries the runtime
    still has to visit; [i] counts the entries seen so far. *)
Fixpoint ListFiles_loop (todo : list FileMetadata) (i start end_ : Z)
    (files : list FileMetadata) : list FileMetadata :=
  match todo with
  | [] => files
  | file :: rest =>
      let files := if (start <=? i) && (i <? end_) then files ++ [file] else files in
      let i := i + 1 in
      if end_ <=? i then files else ListFiles_loop rest i start end_ files
  end.

(** [order] is the sequence in which this call's [range] visits the map.
    [make] panics on a negative capacity; a capacity that is not negative is
    taken to be reserved.  That is what happens for a capacity up to the
    catalog size, which is all a request from page one on can ask for; with a
    page number below one the capacity is the page size itself, and for a page
    size beyond what the process can reserve the run ends in the allocation,
    outside this function's three outcomes.  The statements below that assert
    a return keep to capacities of at most the catalog size. *)
Definition ListFiles (order : list (string * FileMetadata))
    (pageSize pageNumber : Z) (s : storage) : outcome (list FileMetadata * Z) :=
  let n := Z.of_nat (size (files s)) in
  let start := to_int (pageSize * to_int (pageNumber - 1)) in
  let end_ := to_int (start + pageSize) in
  let end_ := if n <? end_ then n else end_ in
  (* make([]*pb.FileMetadata, 0, end-start) *)
  if to_int (end_ - start) <? 0 then Panic "makeslice: cap out of range"
  else Ok (ListFiles_loop order.*2 0 start end_ [], to_int32 n).

(** Go leaves the iteration order of a map unspecified and picks a fresh one
    for every [range] statement: any arrangement of the entries can occur. *)
Definition iteration_of (m : gmap string FileMetadata)
    (order : list (string * FileMetadata)) : Prop :=
  order ≡ₚ map_to_list m.

(** The entries of page [pageNumber], nothing when the call does not return. *)
Definition page (order : list (string * FileMetadata))
    (pageSize pageNumber : Z) (s : storage) : list FileMetadata :=
  match ListFiles order pageSize pageNumber s with
  | Ok (files, _) => files
  | _ => []
  end.

(** The number of pages of a catalog of [n] entries: ceil(n / pageSize). *)
Definition page_count (n pageSize : Z) : Z := (n + pageSize - 1) / pageSize.

(** The states the engine goes through: [NewStorage] over some disk, then
    [SaveFile] calls.  [GetFile] and [ListFiles] assign nothing. *)
Inductive reachable (Join : string → string → string) (dir : string)
    : state → Prop :=
| reachable_new d :
    reachable Join dir {| engine := NewStorage dir; disk := d |}
| reachable_save env filename data st :
    reachable Join dir st →
    reachable Join dir (SaveFile Join env filename data st).2.

(** [SaveFile] calls made one after the other, as by the loop of the engine's
    listing test; each call comes with what it observes.  The results are in
    call order. *)
Fixpoint SaveFiles (Join : string → string → string)
    (calls : list (save_env * string * bytes)) (st : state)
    : list (outcome string) * state :=
  match calls with
  | [] => ([], st)
  | (env, filename, data) :: calls =>
      let '(r, st) := SaveFile Join env filename data st in
      let '(rs, st) := SaveFiles Join calls st in
      (r :: rs, st)
  end.

End Storage.

(** ** Protocol messages (package pb) *)

Record FileInfo := {
  InfoFilename : string;
  InfoContentType : string
}.

(** [UploadFileRequest] with its [oneof data]. *)
Inductive UploadFileRequest :=
| Request_Unset
| Request_Info (info : FileInfo)
| Request_ChunkData (chunk : bytes).

Definition GetInfo (req : UploadFileRequest) : option FileInfo :=
  match req with Request_Info info => Some info | _ => None end.

Definition GetChunkData (req : UploadFileRequest) : bytes :=
  match req with Request_ChunkData chunk => chunk | _ => [] end.

Record UploadFileResponse := {
  RespId : string;
  RespFilename : string;
  RespSize : Z;
  RespCreatedAt : Z
}.

Record ListFilesResponse := {
  Files : list FileMetadata;
  TotalCount : Z
}.

(** ** Package server *)

Module Server.

Definition MaxUploadConcurrency : nat := 10.
Definition MaxDownloadConcurrency : nat := 10.
Definition MaxListConcurrency : nat := 100.

(** [type storage interface]: the three methods, each a transition of the
    implementation's state [St] that may consult its environment [Env]. *)
Class storage_iface (St Env : Type) := {
  storage_SaveFile : Env → string → bytes → St → outcome string * St;
  storage_GetFile : Env → string → St → outcome bytes * St;
  storage_ListFiles :
    Env → Z → Z → St → outcome (list FileMetadata * Z) * St
}.

(** A [chan struct{}]: its elements carry nothing, so a channel is its
    capacity and the number of elements queued in it. *)
Record chan := {
  cap : nat;
  queued : nat
}.

(** [make(chan struct{}, n)]; the nil channel is [None]. *)
Definition make_chan (n : nat) : option chan :=
  Some {| cap := n; queued := 0 |}.

(** [select { case c <- struct{}{}: ... default: ... }]: the channel after the
    send when the send can proceed, [None] when the default branch runs.  A
    send on a nil channel never proceeds. *)
Definition try_send (c : option chan) : option (option chan) :=
  match c with
  | None => None
  | Some ch =>
      if (queued ch <? cap ch)%nat
      then Some (Some {| cap := cap ch; queued := S (queued ch) |})
      else None
  end.

(** [<-c], run by a call that holds one of the queued elements. *)
Definition recv (c : option chan) : option chan :=
  match c with
  | None => None
  | Some ch => Some {| cap := cap ch; queued := Nat.pred (queued ch) |}
  end.

Section WithStorage.

Context {St Env : Type} `{!storage_iface St Env}.

(** [type server struct]; [storage] is [None] for the nil interface. *)
Record server := {
  storage : option St;
  uploadSemaphore : option chan;
  downloadSemaphore : option chan;
  listSemaphore : option chan
}.

Definition NewServer (storage : St) : server :=
  {| storage := Some storage;
     uploadSemaphore := make_chan MaxUploadConcurrency;
     downloadSemaphore := make_chan MaxDownloadConcurrency;
     listSemaphore := make_chan MaxListConcurrency |}.

(** The composite literal [&server{}]. *)
Definition zero_server : server :=
  {| storage := None;
     uploadSemaphore := None;
     downloadSemaphore := None;
     listSemaphore := None |}.

(** [Serve]: [listen] is the error of [net.Listen], [serve] the error with
    which [grpcServer.Serve] eventually comes back.  The second component is
    the service implementation registered with the gRPC server, the one whose
    methods handle the incoming calls. *)
Definition Serve (listen serve : option error) (s : server)
    : outcome unit * option server :=
  match listen with
  | Some err => (Err (Wrapped "could not listen on port 9000" err), None)
  | None =>
      let registered := zero_server in
      match serve with
      | Some err => (Err (Wrapped "failed to serve" err), Some registered)
      | None => (Ok tt, Some registered)
      end
  end.

(** *** UploadFile *)

(** One element of a client stream: what the next [stream.Recv()] returns.
    Past the last element [Recv] returns [io.EOF]. *)
Inductive recv_item :=
| Msg (req : UploadFileRequest)
| Fail (err : error).

Definition Recv (stream : list recv_item) : recv_item * list recv_item :=
  match stream with
  | [] => (Fail EOF, [])
  | x :: rest => (x, rest)
  end.

(** The [for] loop that assembles the chunks. *)
Fixpoint UploadFile_loop (stream : list recv_item) (data : bytes)
    : (error + bytes) * list recv_item :=
  match stream with
  | [] => (inr data, [])
  | Fail err :: rest =>
      if is_EOF err then (inr data, rest) else (inl err, rest)
  | Msg req :: rest => UploadFile_loop rest (data ++ GetChunkData req)
  end.

Record upload_env := {
  up_storage : Env;            (* environment of the SaveFile call *)
  up_now : Z;                  (* time.Now().Unix() *)
  up_send : option error       (* error of stream.SendAndClose *)
}.

Record upload_result := {
  up_return : outcome unit;              (* the error the handler returns *)
  up_server : server;
  up_unread : list recv_item;            (* what is left on the stream *)
  up_response : option UploadFileResponse (* what SendAndClose delivered *)
}.

(** The handler after admission, up to its deferred release. *)
Definition UploadFile_body (env : upload_env) (sto : option St)
    (stream : list recv_item)
    : outcome unit * option St * list recv_item * option UploadFileResponse :=
  match Recv stream with
  | (Fail err, stream) => (Err err, sto, stream, None)
  | (Msg req, stream) =>
      match GetInfo req with
      | None =>
          (Err (StatusError InvalidArgument "First message must contain file info"),
           sto, stream, None)
      | Some fileInfo =>
          match UploadFile_loop stream [] with
          | (inl err, stream) => (Err err, sto, stream, None)
          | (inr data, stream) =>
              match sto with
              | None => (Panic "nil pointer dereference", sto, stream, None)
              | Some st =>
                  match storage_SaveFile (up_storage env)
                          (InfoFilename fileInfo) data st with
                  | (Ok id, st) =>
                      let resp :=
                        {| RespId := id;
                           RespFilename := InfoFilename fileInfo;
                           RespSize := to_int64 (len data);
                           RespCreatedAt := up_now env |} in
                      match up_send env with
                      | Some err => (Err err, Some st, stream, None)
                      | None => (Ok tt, Some st, stream, Some resp)
                      end
                  | (Err _, st) =>
                      (Err (StatusError Internal "Failed to save file"),
                       Some st, stream, None)
                  | (Panic msg, st) => (Panic msg, Some st, stream, None)
                  end
              end
          end
      end
  end.

Definition UploadFile (env : upload_env) (s : server)
    (stream : list recv_item) : upload_result :=
  match try_send (uploadSemaphore s) with
  | None =>
      {| up_return :=
           Err (StatusError ResourceExhausted "Max concurrent uploads reached");
         up_server := s;
         up_unread := stream;
         up_response := None |}
  | Some sem =>
      let '(ret, sto, stream, resp) := UploadFile_body env (storage s) stream in
      (* defer func() { <-s.uploadSemaphore }() *)
      {| up_return := ret;
         up_server :=
           {| storage := sto;
              uploadSemaphore := recv sem;
              downloadSemaphore := downloadSemaphore s;
              listSemaphore := listSemaphore s |};
         up_unread := stream;
         up_response := resp |}
  end.

(** *** DownloadFile *)

Record download_env := {
  down_storage : Env;              (* environment of the GetFile call *)
  down_send : nat → option error   (* error of the k-th stream.Send *)
}.

Record download_result := {
  down_return : outcome unit;
  down_server : server;
  down_sent : list bytes           (* the chunks delivered, in send order *)
}.

(** The chunking loop [for i := 0; i < len(data); i += chunkSize].  Every
    round advances [i] by [chunkSize], so [fuel] rounds with [fuel] at least
    [len(data)] always reach the exit test.  A slice is shorter than
    2^63 - 2^20 bytes, so [i + chunkSize] stays inside [int] and is written
    without its wrap-around. *)
Fixpoint DownloadFile_loop (fuel : nat) (send : nat → option error)
    (chunkSize : Z) (data : bytes) (i : Z) (sent : list bytes)
    : option error * list bytes :=
  match fuel with
  | O => (None, sent)
  | S fuel =>
      if i <? len data then
        let end_ := i + chunkSize in
        let end_ := if len data <? end_ then len data else end_ in
        match send (length sent) with
        | Some err => (Some err, sent)
        | None =>
            DownloadFile_loop fuel send chunkSize data (i + chunkSize)
              (sent ++ [slice data i end_])
        end
      else (None, sent)
  end.

Definition DownloadFile_body (env : download_env) (sto : option St)
    (id : string) : outcome unit * option St * list bytes :=
  match sto with
  | None => (Panic "nil pointer dereference", sto, [])
  | Some st =>
      match storage_GetFile (down_storage env) id st with
      | (Ok data, st) =>
          let chunkSize := 1024 * 1024 in
          match DownloadFile_loop (length data) (down_send env) chunkSize
                  data 0 [] with
          | (Some err, sent) => (Err err, Some st, sent)
          | (None, sent) => (Ok tt, Some st, sent)
          end
      | (Err _, st) =>
          (Err (StatusError NotFound "File not found"), Some st, [])
      | (Panic msg, st) => (Panic msg, Some st, [])
      end
  end.

Definition DownloadFile (env : download_env) (s : server) (id : string)
    : download_result :=
  match try_send (downloadSemaphore s) with
  | None =>
      {| down_return :=
           Err (StatusError ResourceExhausted "Max concurrent downloads reached");
         down_server := s;
         down_sent := [] |}
  | Some sem =>
      let '(ret, sto, sent) := DownloadFile_body env (storage s) id in
      (* defer func() { <-s.downloadSemaphore }() *)
      {| down_return := ret;
         down_server :=
           {| storage := sto;
              uploadSemaphore := uploadSemaphore s;
              downloadSemaphore := recv sem;
              listSemaphore := listSemaphore s |};
         down_sent := sent |}
  end.

(** *** ListFiles *)

Definition ListFiles_body (env : Env) (sto : option St)
    (pageSize pageNumber : Z) : outcome ListFilesResponse * option St :=
  match sto with
  | None => (Panic "nil pointer dereference", sto)
  | Some st =>
      match storage_ListFiles env pageSize pageNumber st with
      | (Ok (files, totalCount), st) =>
          (Ok {| Files := files; TotalCount := totalCount |}, Some st)
      | (Err _, st) =>
          (Err (StatusError Internal "Failed to list files"), Some st)
      | (Panic msg, st) => (Panic msg, Some st)
      end
  end.

Definition ListFiles (env : Env) (s : server) (pageSize pageNumber : Z)
    : outcome ListFilesResponse * server :=
  match try_send (listSemaphore s) with
  | None =>
      (Err (StatusError ResourceExhausted "Max concurrent list requests reached"),
       s)
  | Some sem =>
      let '(ret, sto) := ListFiles_body env (storage s) pageSize pageNumber in
      (* defer func() { <-s.listSemaphore }(); it also runs when the body panics *)
      (ret,
       {| storage := sto;
          uploadSemaphore := uploadSemaphore s;
          downloadSemaphore := downloadSemaphore s;
          listSemaphore := recv sem |})
  end.

End WithStorage.

Arguments server : clear implicits.

End Server.

(** ** Package main: the disk-backed engine behind the server's interface *)

Module Main.

(** What a storage call may observe: a [SaveFile] its clock readings and write
    outcome, a [ListFiles] the iteration order of its [range]. *)
Record disk_env := {
  save : Storage.save_env;
  order : list (string * FileMetadata)
}.

(** [*storage.storage] satisfies the server's [storage] interface. *)
Definition disk_storage (Join : string → string → string)
    : Server.storage_iface Storage.state disk_env :=
  {| Server.storage_SaveFile env filename data st :=
       Storage.SaveFile Join (save env) filename data st;
     Server.storage_GetFile env id st := (Storage.GetFile Join id st, st);
     Server.storage_ListFiles env pageSize pageNumber st :=
       (Storage.ListFiles (order env) pageSize pageNumber (Storage.engine st),
        st) |}.

(** [storage := filestorage.NewStorage("./storage")] over the disk [d], then
    [server := fileserver.NewServer(storage)]. *)
Definition main_server (d : Storage.fs) : Server.server Storage.state :=
  Server.NewServer
    {| Storage.engine := Storage.NewStorage "./storage"; Storage.disk := d |}.

End Main.

(** ** The storage double of the server's tests

    [mockStorage] answers every method with the values set up for it and
    records the call, so its state is the list of calls made so far. *)

Module Mock.

Inductive call :=
| Called_SaveFile (filename : string) (data : bytes)
| Called_GetFile (id : string)
| Called_ListFiles (pageSize pageNumber : Z).

Record returns := {
  ret_SaveFile : outcome string;
  ret_GetFile : outcome bytes;
  ret_ListFiles : outcome (list FileMetadata * Z)
}.

Definition mockStorage : Server.storage_iface (list call) returns :=
  {| Server.storage_SaveFile env filename data calls :=
       (ret_SaveFile env, calls ++ [Called_SaveFile filename data]);
     Server.storage_GetFile env id calls :=
       (ret_GetFile env, calls ++ [Called_GetFile id]);
     Server.storage_ListFiles env pageSize pageNumber calls :=
       (ret_ListFiles env, calls ++ [Called_ListFiles pageSize pageNumber]) |}.

End Mock.

(** ** Calls in flight

    Each gRPC call runs in a goroutine of its own.  The only state the
    goroutines of different calls share besides the engine (which its lock
    serialises) is the three semaphore channels, and a channel operation is
    atomic: an execution is an interleaving of the admission [select]s and
    the deferred receives of the calls. *)

Module Concurrent.

Import Server.

Inductive op := Upload | Download | List.

Definition capacity (k : op) : nat :=
  match k with
  | Upload => MaxUploadConcurrency
  | Download => MaxDownloadConcurrency
  | List => MaxListConcurrency
  end.

Section WithState.

Context {St : Type}.

Definition semaphore (k : op) (s : server St) : option chan :=
  match k with
  | Upload => uploadSemaphore s
  | Download => downloadSemaphore s
  | List => listSemaphore s
  end.

Definition set_semaphore (k : op) (c : option chan) (s : server St)
    : server St :=
  match k with
  | Upload =>
      {| storage := storage s; uploadSemaphore := c;
         downloadSemaphore := downloadSemaphore s;
         listSemaphore := listSemaphore s |}
  | Download =>
      {| storage := storage s; uploadSemaphore := uploadSemaphore s;
         downloadSemaphore := c;
         listSemaphore := listSemaphore s |}
  | List =>
      {| storage := storage s; uploadSemaphore := uploadSemaphore s;
         downloadSemaphore := downloadSemaphore s;
         listSemaphore := c |}
  end.

Definition set_storage (sto : option St) (s : server St) : server St :=
  {| storage := sto; uploadSemaphore := uploadSemaphore s;
     downloadSemaphore := downloadSemaphore s;
     listSemaphore := listSemaphore s |}.

(** The [select] that opens the handler of kind [k]. *)
Definition acquire (k : op) (s : server St) : option (server St) :=
  match try_send (semaphore k s) with
  | Some c => Some (set_semaphore k c s)
  | None => None
  end.

(** The deferred receive that closes it. *)
Definition release (k : op) (s : server St) : server St :=
  set_semaphore k (recv (semaphore k s)) s.

(** A call of kind [k] arrives, or one that was admitted terminates. *)
Inductive event :=
| Call (k : op)
| Return (k : op).

Inductive verdict := Accepted | Rejected | Released.

Global Instance op_eq_dec : EqDecision op.
Proof. solve_decision. Defined.
Global Instance event_eq_dec : EqDecision event.
Proof. solve_decision. Defined.
Global Instance verdict_eq_dec : EqDecision verdict.
Proof. solve_decision. Defined.

(** The server and, per kind, the number of admitted calls still running. *)
Record system := {
  srv : server St;
  inflight : op → nat
}.

Definition bump (f : nat → nat) (k : op) (n : op → nat) : op → nat :=
  λ k', if decide (k' = k) then f (n k') else n k'.

(** One event; [None] when the event cannot happen (no call of that kind is
    running that could terminate). *)
Definition step (y : system) (e : event) : option (system * verdict) :=
  match e with
  | Call k =>
      match acquire k (srv y) with
      | Some s => Some ({| srv := s; inflight := bump S k (inflight y) |}, Accepted)
      | None => Some (y, Rejected)
      end
  | Return k =>
      match inflight y k with
      | O => None
      | S _ =>
          Some ({| srv := release k (srv y);
                   inflight := bump Nat.pred k (inflight y) |}, Released)
      end
  end.

(** An interleaving, with the verdict of every event. *)
Fixpoint run (y : system) (t : list event)
    : option (system * list (event * verdict)) :=
  match t with
  | [] => Some (y, [])
  | e :: t =>
      match step y e with
      | None => None
      | Some (y, v) =>
          match run y t with
          | None => None
          | Some (y, log) => Some (y, (e, v) :: log)
          end
      end
  end.

(** A server fresh from [NewServer], no call running. *)
Definition idle (sto : St) : system :=
  {| srv := NewServer sto; inflight := λ _, O |}.

(** The number of calls of kind [k] that arrive in an interleaving. *)
Definition calls (k : op) (t : list event) : nat :=
  length (filter (λ e, e = Call k) t).

(** Every semaphore has its pool's capacity and holds one element per running
    call of its kind. *)
Definition consistent (y : system) : Prop :=
  ∀ k, semaphore k (srv y) = Some {| cap := capacity k; queued := inflight y k |}
       ∧ (inflight y k ≤ capacity k)%nat.

End WithState.

End Concurrent.

(** ** Sample values *)

Module Sample.

(** A stand-in for [filepath.Join]: the two parts with a separator between
    them, without the cleaning [filepath.Join] applies to the result. *)
Definition join (dir elem : string) : string := dir +:+ "/" +:+ elem.

(** "hello" *)
Definition hello : bytes := [Byte.x68; Byte.x65; Byte.x6c; Byte.x6c; Byte.x6f].

(** "bye" *)
Definition bye : bytes := [Byte.x62; Byte.x79; Byte.x65].

Definition fresh : Storage.state :=
  {| Storage.engine := Storage.NewStorage "./storage"; Storage.disk := ∅ |}.

(** A save that reads the clock at [nano] ns, [unix] s and whose write
    succeeds. *)
Definition at_time (nano unix : Z) : Storage.save_env :=
  {| Storage.now_nano := nano; Storage.write := Storage.WriteOk;
     Storage.now_unix := unix |}.

Definition disk_full : error := PathError "write" "no space left on device".

Definition save (nano unix : Z) (filename : string) (data : bytes)
    (st : Storage.state) : Storage.state :=
  (Storage.SaveFile join (at_time nano unix) filename data st).2.

(** Two saves one nanosecond apart. *)
Definition two_files : Storage.state :=
  save 2 0 "b.txt" bye (save 1 0 "a.txt" hello fresh).

(** Five saves, as in the engine's listing test. *)
Definition five_files : Storage.state :=
  save 5 0 "test_image_4.png" hello
    (save 4 0 "test_image_3.png" hello
       (save 3 0 "test_image_2.png" hello
          (save 2 0 "test_image_1.png" hello
             (save 1 0 "test_image_0.png" hello fresh)))).

Definition entry_a : FileMetadata :=
  {| Id := "1"; Filename := "a.txt"; Size := 5; CreatedAt := 0; UpdatedAt := 0 |}.

Definition entry_b : FileMetadata :=
  {| Id := "2"; Filename := "b.txt"; Size := 3; CreatedAt := 0; UpdatedAt := 0 |}.

End Sample.

(** * Properties of the storage engine *)

Section StorageFacts.

Import Storage.

Variable Join : string → string → string.

Lemma SaveFile_ok_inv env filename data st id st' :
  SaveFile Join env filename data st = (Ok id, st') →
  id = Sprintf_d (now_nano env) ∧
  disk st' = <[Join (directory (engine st)) id := data]> (disk st) ∧
  directory (engine st') = directory (engine st) ∧
  files (engine st') =
    <[id := {| Id := id; Filename := filename; Size := to_int64 (len data);
               CreatedAt := now_unix env; UpdatedAt := now_unix env |}]>
      (files (engine st)).
Proof.
  unfold SaveFile, WriteFile.
  destruct (write env) as [|e [k|]]; intros H; inversion H; subst; simpl; auto.
Qed.

(** C1: a successful [SaveFile] followed by [GetFile] on the returned id gives
    back exactly the bytes that were saved. *)
Theorem SaveFile_GetFile_round_trip env filename data st id st' :
  SaveFile Join env filename data st = (Ok id, st') →
  GetFile Join id st' = Ok data.
Proof.
  intros H. apply SaveFile_ok_inv in H as (_ & Hdisk & Hdir & _).
  unfold GetFile, ReadFile. rewrite Hdir, Hdisk.
  by rewrite lookup_insert_eq.
Qed.

(** C6: when the blob write fails, [SaveFile] returns the write's error and
    the engine (directory and catalog) is exactly what it was; on disk either
    nothing changed or the blob path holds the bytes written before the
    failure, an orphan without a catalog entry. *)
Theorem SaveFile_write_failure env e written filename data st :
  write env = WriteFails e written →
  ∃ st',
    SaveFile Join env filename data st = (Err e, st') ∧
    engine st' = engine st ∧
    files (engine st') = files (engine st) ∧
    disk st' =
      match written with
      | None => disk st
      | Some k =>
          <[Join (directory (engine st)) (Sprintf_d (now_nano env))
            := take k data]> (disk st)
      end.
Proof.
  intros Hw. unfold SaveFile, WriteFile. rewrite Hw.
  destruct written as [k|]; eexists; repeat split; reflexivity.
Qed.

(** C7: two saves that read the same nanosecond from the clock both succeed
    and return the same identifier; the second overwrites the blob and the
    catalog entry of the first, and the catalog does not grow. *)
Theorem SaveFile_same_instant_same_id t u1 u2 f1 data1 f2 data2 st :
  ∃ st1 st2,
    SaveFile Join (Sample.at_time t u1) f1 data1 st = (Ok (Sprintf_d t), st1) ∧
    SaveFile Join (Sample.at_time t u2) f2 data2 st1 = (Ok (Sprintf_d t), st2) ∧
    GetFile Join (Sprintf_d t) st1 = Ok data1 ∧
    GetFile Join (Sprintf_d t) st2 = Ok data2 ∧
    size (files (engine st2)) = size (files (engine st1)).
Proof.
  do 2 eexists. split; [reflexivity |]. split; [reflexivity |].
  unfold GetFile, ReadFile; simpl.
  rewrite !lookup_insert_eq, insert_insert_eq.
  split; [reflexivity |]. split; [reflexivity |].
  by rewrite !map_size_insert.
Qed.

(** Two saves return different identifiers exactly when their nanosecond
    clock readings differ. *)
Theorem SaveFile_ids_differ_iff env1 env2 f1 data1 f2 data2 st st1 st2 id1 id2 :
  SaveFile Join env1 f1 data1 st = (Ok id1, st1) →
  SaveFile Join env2 f2 data2 st1 = (Ok id2, st2) →
  id1 ≠ id2 ↔ now_nano env1 ≠ now_nano env2.
Proof.
  intros H1 H2.
  apply SaveFile_ok_inv in H1 as (-> & _). apply SaveFile_ok_inv in H2 as (-> & _).
  unfold Sprintf_d. split; intros Hne Heq; apply Hne.
  - by rewrite Heq.
  - by apply (inj pretty).
Qed.

(** A save never removes a catalog key, and when the identifier it generates
    is not yet in the catalog it leaves every existing entry as it is. *)
Theorem SaveFile_keeps_entries env filename data st r st' :
  SaveFile Join env filename data st = (r, st') →
  dom (files (engine st)) ⊆ dom (files (engine st')) ∧
  (files (engine st) !! Sprintf_d (now_nano env) = None →
   ∀ k m, files (engine st) !! k = Some m → files (engine st') !! k = Some m).
Proof.
  unfold SaveFile, WriteFile.
  destruct (write env) as [|e [k|]]; intros H; inversion H; subst; simpl;
    (split; [set_solver | intros Hfresh k' m Hk; try done]).
  rewrite lookup_insert_ne; [done | congruence].
Qed.

(** In every state the engine reaches, each catalog entry is filed under its
    own [Id], has [UpdatedAt] equal to [CreatedAt], and has a blob at its path;
    the directory never changes. *)
Theorem reachable_catalog_invariant dir st :
  reachable Join dir st →
  directory (engine st) = dir ∧
  ∀ k m, files (engine st) !! k = Some m →
    Id m = k ∧ UpdatedAt m = CreatedAt m ∧ is_Some (disk st !! Join dir k).
Proof.
  induction 1 as [d | env filename data st Hr [Hdir IH]]; simpl.
  - split; [done |]. intros k m Hk. by rewrite lookup_empty in Hk.
  - unfold SaveFile, WriteFile.
    destruct (write env) as [|e [w|]]; simpl; (split; [done |]); intros k m Hk.
    + rewrite Hdir in *.
      destruct (decide (k = Sprintf_d (now_nano env))) as [-> | Hne].
      * rewrite lookup_insert_eq in Hk. injection Hk as <-. simpl.
        by rewrite lookup_insert_eq.
      * rewrite lookup_insert_ne in Hk by done.
        destruct (IH k m Hk) as (? & ? & Hblob). split_and!; [done | done |].
        rewrite lookup_insert. case_decide; [by eexists | done].
    + destruct (IH k m Hk) as (? & ? & Hblob). split_and!; [done | done |].
      rewrite Hdir. rewrite lookup_insert. case_decide; [by eexists | done].
    + by apply IH.
Qed.

End StorageFacts.

(** A save of "hello" as [a.txt] round-trips. *)
Lemma SaveFile_GetFile_round_trip_witness :
  Storage.SaveFile Sample.join (Sample.at_time 1700000000000000001 1700000000)
    "a.txt" Sample.hello Sample.fresh
  = (Ok "1700000000000000001",
     (Storage.SaveFile Sample.join (Sample.at_time 1700000000000000001 1700000000)
        "a.txt" Sample.hello Sample.fresh).2)
  ∧ Storage.GetFile Sample.join "1700000000000000001"
      (Storage.SaveFile Sample.join (Sample.at_time 1700000000000000001 1700000000)
         "a.txt" Sample.hello Sample.fresh).2
    = Ok Sample.hello.
Proof.
  split; [vm_compute; reflexivity |].
  apply (SaveFile_GetFile_round_trip Sample.join
           (Sample.at_time 1700000000000000001 1700000000)
           "a.txt" Sample.hello Sample.fresh).
  vm_compute; reflexivity.
Defined.

(** A write that fails after two bytes leaves the catalog empty. *)
Lemma SaveFile_write_failure_witness :
  ∃ st',
    Storage.SaveFile Sample.join
      {| Storage.now_nano := 7;
         Storage.write := Storage.WriteFails Sample.disk_full (Some 2%nat);
         Storage.now_unix := 0 |} "a.txt" Sample.hello Sample.fresh
    = (Err Sample.disk_full, st') ∧
    Storage.engine st' = Storage.engine Sample.fresh ∧
    Storage.files (Storage.engine st') = ∅ ∧
    Storage.disk st' = <[Sample.join "./storage" "7" := take 2 Sample.hello]> ∅.
Proof.
  apply (SaveFile_write_failure Sample.join
           {| Storage.now_nano := 7;
              Storage.write := Storage.WriteFails Sample.disk_full (Some 2%nat);
              Storage.now_unix := 0 |}
           Sample.disk_full (Some 2%nat) "a.txt" Sample.hello Sample.fresh).
  reflexivity.
Defined.

(** C9: a save that generates the identifier of an existing entry replaces
    that entry: after [a.txt] and [b.txt] are saved at the same nanosecond the
    catalog holds one entry under that identifier, with the second save's
    filename, size and timestamps. *)
Theorem SaveFile_same_instant_replaces_entry :
  let st1 := Sample.save 1 0 "a.txt" Sample.hello Sample.fresh in
  let st2 := Sample.save 1 9 "b.txt" Sample.bye st1 in
  Storage.files (Storage.engine st1) !! "1" = Some Sample.entry_a ∧
  Storage.files (Storage.engine st2) !! "1" =
    Some {| Id := "1"; Filename := "b.txt"; Size := 3;
            CreatedAt := 9; UpdatedAt := 9 |} ∧
  size (Storage.files (Storage.engine st2)) = 1%nat.
Proof. vm_compute. auto. Qed.

(** * Properties of the listing *)

(** C2: over the five-entry catalog a request for page 2 of size 10, or for
    page 3 of size 3, computes a start index beyond the catalog and a negative
    slice capacity; a negative page size does the same.  The [make] call
    panics, whatever the iteration order, and the panic passes through the
    server's handler. *)
Theorem ListFiles_page_past_the_end_panics order :
  let s := Storage.engine Sample.five_files in
  let H := Main.disk_storage Sample.join in
  Storage.ListFiles order 10 2 s = Panic "makeslice: cap out of range" ∧
  Storage.ListFiles order 3 3 s = Panic "makeslice: cap out of range" ∧
  Storage.ListFiles order (-1) 1 s = Panic "makeslice: cap out of range" ∧
  (Server.ListFiles {| Main.save := Sample.at_time 6 0; Main.order := order |}
     (Server.NewServer Sample.five_files) 10 2).1
    = Panic "makeslice: cap out of range".
Proof. vm_compute. auto. Qed.

(** C3: over the two-entry catalog, with page size 1, a first call whose
    [range] visits [a.txt] first and a second call whose [range] visits
    [b.txt] first return the same entry as page 1 and as page 2: the pages
    1..2 together hold one entry twice and miss the other. *)
Theorem ListFiles_pages_overlap_across_orders :
  let s := Storage.engine Sample.two_files in
  let ab := [("1", Sample.entry_a); ("2", Sample.entry_b)] in
  let ba := [("2", Sample.entry_b); ("1", Sample.entry_a)] in
  Storage.iteration_of (Storage.files s) ab ∧
  Storage.iteration_of (Storage.files s) ba ∧
  Storage.page_count 2 1 = 2 ∧
  Storage.ListFiles ab 1 1 s = Ok ([Sample.entry_a], 2) ∧
  Storage.ListFiles ba 1 2 s = Ok ([Sample.entry_a], 2).
Proof.
  intros s ab ba.
  assert (Hl : map_to_list (Storage.files s) = ab) by (vm_compute; reflexivity).
  unfold Storage.iteration_of. rewrite Hl.
  split; [reflexivity |]. split; [apply perm_swap |].
  vm_compute. auto.
Qed.

(** * Properties of the transfer server *)

Section ServerFacts.

Import Server.

Context {St Env : Type} {impl : storage_iface St Env}.

Implicit Types (s : server St) (ch : option chan).

Lemma try_send_recv ch ch' : try_send ch = Some ch' → recv ch' = ch.
Proof.
  destruct ch as [[n q]|]; simpl; [| done].
  destruct (q <? n)%nat; intros H; inversion H; subst. reflexivity.
Qed.

(** C4: when an admitted upload's first message carries no file info, the
    handler returns the invalid-argument status, has consumed that one message
    and nothing after it, has sent no response, and leaves the server, its
    storage engine included, exactly as it found it: no method of the storage
    interface ran, whatever implements it. *)
Theorem UploadFile_first_message_not_info env s req rest sem :
  try_send (uploadSemaphore s) = Some sem →
  GetInfo req = None →
  let r := UploadFile env s (Msg req :: rest) in
  up_return r =
    Err (StatusError InvalidArgument "First message must contain file info") ∧
  up_unread r = rest ∧
  up_response r = None ∧
  storage (up_server r) = storage s ∧
  up_server r = s.
Proof.
  intros Hsem Hinfo. unfold UploadFile, UploadFile_body. rewrite Hsem. simpl.
  rewrite Hinfo. simpl. rewrite (try_send_recv _ _ Hsem).
  destruct s; auto.
Qed.

(** *** Chunking *)

Lemma len_slice {A} (data : list A) i j :
  0 <= i <= j → j <= len data → len (slice data i j) = j - i.
Proof.
  unfold slice, len. intros ? ?.
  rewrite length_take, length_drop. lia.
Qed.

Lemma slice_drop {A} (data : list A) i j :
  0 <= i <= j →
  slice data i j ++ drop (Z.to_nat j) data = drop (Z.to_nat i) data.
Proof.
  unfold slice. intros ?.
  replace (Z.to_nat j) with (Z.to_nat i + Z.to_nat (j - i))%nat by lia.
  rewrite <- drop_drop. apply take_drop.
Qed.

(** What the chunking loop does when no send fails: from offset [i] it appends
    chunks [new] that spell the rest of the blob; chunk [k] is the slice that
    starts [k] chunk sizes after [i], no chunk is empty or longer than the
    chunk size, and every chunk with a successor is full. *)
Lemma DownloadFile_loop_all_sent (send : nat → option error) chunkSize
    (data : bytes) :
  (∀ k, send k = None) → 0 < chunkSize →
  ∀ fuel i sent, 0 <= i → len data - i <= Z.of_nat fuel →
  ∃ new,
    DownloadFile_loop fuel send chunkSize data i sent = (None, sent ++ new) ∧
    concat new = drop (Z.to_nat i) data ∧
    (new = [] ↔ len data <= i) ∧
    ∀ k c, new !! k = Some c →
      c = slice data (i + Z.of_nat k * chunkSize)
            (Z.min (i + (Z.of_nat k + 1) * chunkSize) (len data)) ∧
      0 < len c <= chunkSize ∧
      ((S k < length new)%nat → len c = chunkSize).
Proof.
  intros Hsend Hcs.
  assert (Hdone : ∀ i (sent : list bytes), len data <= i →
    ∃ new, (None : option error, sent) = (None, sent ++ new) ∧
      concat new = drop (Z.to_nat i) data ∧ (new = [] ↔ len data <= i) ∧
      ∀ k c, new !! k = Some c →
        c = slice data (i + Z.of_nat k * chunkSize)
              (Z.min (i + (Z.of_nat k + 1) * chunkSize) (len data)) ∧
        0 < len c <= chunkSize ∧ ((S k < length new)%nat → len c = chunkSize)).
  { intros i sent Hi. exists []. rewrite app_nil_r. split_and!; try done.
    simpl. symmetry. apply drop_ge. unfold len in Hi. lia. }
  induction fuel as [|fuel IH]; intros i sent Hi Hfuel; simpl.
  { apply Hdone. lia. }
  destruct (Z.ltb_spec i (len data)) as [Hlt | Hge]; [| by apply Hdone].
  rewrite Hsend.
  set (e := if len data <? i + chunkSize then len data else i + chunkSize).
  assert (He : e = Z.min (i + chunkSize) (len data)).
  { subst e. destruct (Z.ltb_spec (len data) (i + chunkSize)); lia. }
  destruct (IH (i + chunkSize) (sent ++ [slice data i e])) as
    (new & Hloop & Hcat & Hnil & Hk); [lia | lia |].
  exists (slice data i e :: new). split_and!.
  - rewrite Hloop. by rewrite <- app_assoc.
  - simpl. rewrite Hcat.
    destruct (Z.le_gt_cases (i + chunkSize) (len data)).
    + replace e with (i + chunkSize) by lia. apply slice_drop. lia.
    + rewrite (drop_ge _ (Z.to_nat (i + chunkSize))) by (unfold len in *; lia).
      rewrite app_nil_r. unfold slice. apply take_ge.
      rewrite length_drop. unfold len in *. lia.
  - split; [done | lia].
  - intros [|k] c Hc; simpl in Hc.
    + injection Hc as <-. split; [| split].
      * f_equal; lia.
      * rewrite len_slice; lia.
      * simpl. intros Hmore. rewrite len_slice by lia.
        assert (new ≠ []) by (destruct new; simpl in *; [lia | done]).
        assert (¬ len data <= i + chunkSize) by (rewrite <- Hnil; done).
        lia.
    + destruct (Hk k c Hc) as (-> & Hlen & Hfull). split; [| split].
      * f_equal; lia.
      * done.
      * simpl. intros ?. apply Hfull. lia.
Qed.

(** C5: an admitted download whose blob [GetFile] returns and whose sends all
    succeed returns without error having sent chunks whose concatenation, in
    send order, is the blob: chunk [k] is the blob's slice that starts at
    [k] MiB, every chunk that is not the last is exactly 1048576 bytes long,
    and no chunk (so not the last either) is empty or longer than that; a
    non-empty blob yields at least one chunk. *)
Theorem DownloadFile_chunks env s id sem st data st' :
  try_send (downloadSemaphore s) = Some sem →
  storage s = Some st →
  storage_GetFile (down_storage env) id st = (Ok data, st') →
  (∀ k, down_send env k = None) →
  let r := DownloadFile env s id in
  down_return r = Ok tt ∧
  concat (down_sent r) = data ∧
  (∀ k c, down_sent r !! k = Some c →
     c = slice data (Z.of_nat k * 1048576)
           (Z.min ((Z.of_nat k + 1) * 1048576) (len data)) ∧
     0 < len c <= 1048576 ∧
     ((S k < length (down_sent r))%nat → len c = 1048576)) ∧
  (data ≠ [] → down_sent r ≠ []).
Proof.
  intros Hsem Hsto Hget Hsend.
  destruct (DownloadFile_loop_all_sent (down_send env) (1024 * 1024) data
              Hsend eq_refl (length data) 0 []) as (new & Hloop & Hcat & Hnil & Hk);
    [done | unfold len; lia |].
  unfold DownloadFile, DownloadFile_body. rewrite Hsem, Hsto, Hget, Hloop.
  simpl. split; [done |]. split; [done |]. split.
  - intros k c Hc. destruct (Hk k c Hc) as (-> & ? & ?).
    split; [f_equal; lia | split; done].
  - intros Hdata Hnew. apply Hnil in Hnew.
    destruct data; [done | unfold len in Hnew; simpl in Hnew; lia].
Qed.

(** When the send of chunk [j] is the first to fail, the loop stops there with
    that error, having delivered the [j] full chunks before it. *)
Lemma DownloadFile_loop_send_fails_at (send : nat → option error) chunkSize
    (data : bytes) (j : nat) err :
  0 < chunkSize → send j = Some err →
  ∀ fuel i sent,
    0 <= i → len data - i <= Z.of_nat fuel →
    (length sent ≤ j)%nat →
    (∀ k, (length sent ≤ k < j)%nat → send k = None) →
    i + (Z.of_nat j - Z.of_nat (length sent)) * chunkSize < len data →
    ∃ new,
      DownloadFile_loop fuel send chunkSize data i sent = (Some err, sent ++ new) ∧
      length (sent ++ new) = j ∧
      ∀ k c, new !! k = Some c →
        c = slice data (i + Z.of_nat k * chunkSize)
              (i + (Z.of_nat k + 1) * chunkSize).
Proof.
  intros Hcs Hfail.
  induction fuel as [|fuel IH]; intros i sent Hi Hfuel Hj Hok Hin; simpl.
  { nia. }
  destruct (Z.ltb_spec i (len data)) as [Hlt | Hge]; [| nia].
  destruct (decide (length sent = j)) as [<- | Hne].
  - rewrite Hfail. exists []. rewrite app_nil_r. by split_and!.
  - rewrite Hok by lia.
    assert (Hfull : i + chunkSize < len data) by nia.
    destruct (Z.ltb_spec (len data) (i + chunkSize)) as [? | _]; [lia |].
    destruct (IH (i + chunkSize) (sent ++ [slice data i (i + chunkSize)]))
      as (new & Hloop & Hlen & Hk).
    + lia.
    + lia.
    + rewrite length_app. simpl. lia.
    + intros k. rewrite length_app. simpl. intros ?. apply Hok. lia.
    + rewrite length_app. simpl. nia.
    + exists (slice data i (i + chunkSize) :: new). split; [| split].
      * rewrite Hloop. by rewrite <- app_assoc.
      * rewrite <- Hlen. rewrite !length_app. simpl. lia.
      * intros [|k] c Hc; simpl in Hc.
        -- injection Hc as <-. f_equal; lia.
        -- rewrite (Hk k c Hc). f_equal; lia.
Qed.

(** A send that fails midstream ends the download with that send's error;
    exactly the chunks before it were delivered and none after. *)
Theorem DownloadFile_send_failure env s id sem st data st' j err :
  try_send (downloadSemaphore s) = Some sem →
  storage s = Some st →
  storage_GetFile (down_storage env) id st = (Ok data, st') →
  (∀ k, (k < j)%nat → down_send env k = None) →
  down_send env j = Some err →
  Z.of_nat j * 1048576 < len data →
  let r := DownloadFile env s id in
  down_return r = Err err ∧
  length (down_sent r) = j ∧
  (∀ k c, down_sent r !! k = Some c →
     c = slice data (Z.of_nat k * 1048576) ((Z.of_nat k + 1) * 1048576)) ∧
  down_server r =
    {| storage := Some st';
       uploadSemaphore := uploadSemaphore s;
       downloadSemaphore := downloadSemaphore s;
       listSemaphore := listSemaphore s |}.
Proof.
  intros Hsem Hsto Hget Hok Hfail Hin.
  destruct (DownloadFile_loop_send_fails_at (down_send env) (1024 * 1024) data
              j err eq_refl Hfail (length data) 0 [])
    as (new & Hloop & Hlen & Hk).
  - done.
  - unfold len. lia.
  - simpl. lia.
  - intros k ?. apply Hok. lia.
  - simpl. lia.
  - unfold DownloadFile, DownloadFile_body. rewrite Hsem, Hsto, Hget, Hloop.
    simpl. split; [done |]. split; [done |]. split.
    + intros k c Hc. rewrite (Hk k c Hc). f_equal; lia.
    + by rewrite (try_send_recv _ _ Hsem).
Qed.

(** *** Upload assembly *)

Lemma UploadFile_loop_chunks (chunks : list bytes) : ∀ data,
  UploadFile_loop (map (λ c, Msg (Request_ChunkData c)) chunks) data =
  (inr (data ++ concat chunks), []).
Proof.
  induction chunks as [|c chunks IH]; intros data; simpl.
  - by rewrite app_nil_r.
  - rewrite IH. by rewrite <- app_assoc.
Qed.

(** An admitted upload that delivers file info, then chunks, then the end of
    the stream hands the chunks' concatenation in arrival order to [SaveFile]
    under the given filename; when the save and the reply succeed the client
    receives the generated id, the filename, the total length and the current
    time, and the engine is in the state the save left. *)
Theorem UploadFile_saves_concatenation env s sem st info chunks id st' :
  try_send (uploadSemaphore s) = Some sem →
  storage s = Some st →
  storage_SaveFile (up_storage env) (InfoFilename info) (concat chunks) st
    = (Ok id, st') →
  up_send env = None →
  let r :=
    UploadFile env s
      (Msg (Request_Info info) :: map (λ c, Msg (Request_ChunkData c)) chunks) in
  up_return r = Ok tt ∧
  up_response r =
    Some {| RespId := id; RespFilename := InfoFilename info;
            RespSize := to_int64 (len (concat chunks));
            RespCreatedAt := up_now env |} ∧
  storage (up_server r) = Some st' ∧
  up_unread r = [].
Proof.
  intros Hsem Hsto Hsave Hsend. unfold UploadFile, UploadFile_body.
  rewrite Hsem, Hsto. simpl. rewrite UploadFile_loop_chunks. simpl.
  rewrite Hsave, Hsend. simpl. auto.
Qed.

(** *** Error mapping *)

(** Storage failures reach the client as status codes: a failed save as
    Internal with no response, a failed read as NotFound with no chunk sent,
    a failed listing as Internal. *)
Theorem storage_errors_become_status env_up env_down env_list s st :
  storage s = Some st →
  (∀ sem info chunks e st',
     try_send (uploadSemaphore s) = Some sem →
     storage_SaveFile (up_storage env_up) (InfoFilename info) (concat chunks) st
       = (Err e, st') →
     let r :=
       UploadFile env_up s
         (Msg (Request_Info info) :: map (λ c, Msg (Request_ChunkData c)) chunks) in
     up_return r = Err (StatusError Internal "Failed to save file") ∧
     up_response r = None) ∧
  (∀ sem id e st',
     try_send (downloadSemaphore s) = Some sem →
     storage_GetFile (down_storage env_down) id st = (Err e, st') →
     let r := DownloadFile env_down s id in
     down_return r = Err (StatusError NotFound "File not found") ∧
     down_sent r = []) ∧
  (∀ sem pageSize pageNumber e st',
     try_send (listSemaphore s) = Some sem →
     storage_ListFiles env_list pageSize pageNumber st = (Err e, st') →
     (ListFiles env_list s pageSize pageNumber).1 =
       Err (StatusError Internal "Failed to list files")).
Proof.
  intros Hsto. split; [| split].
  - intros sem info chunks e st' Hsem Hsave. unfold UploadFile, UploadFile_body.
    rewrite Hsem, Hsto. simpl. rewrite UploadFile_loop_chunks. simpl.
    by rewrite Hsave.
  - intros sem id e st' Hsem Hget. unfold DownloadFile, DownloadFile_body.
    by rewrite Hsem, Hsto, Hget.
  - intros sem pageSize pageNumber e st' Hsem Hlist.
    unfold ListFiles, ListFiles_body.
    by rewrite Hsem, Hsto, Hlist.
Qed.

End ServerFacts.

(** The "missing file info" case of the upload test: the only message is a
    chunk; the mock records no call. *)
Lemma UploadFile_first_message_not_info_witness :
  let H := Mock.mockStorage in
  let env :=
    {| Server.up_storage :=
         {| Mock.ret_SaveFile := Ok "123"; Mock.ret_GetFile := Ok [];
            Mock.ret_ListFiles := Ok ([], 0) |};
       Server.up_now := 0; Server.up_send := None |} in
  let r :=
    Server.UploadFile env (Server.NewServer [])
      [Server.Msg (Request_ChunkData Sample.hello);
       Server.Msg (Request_ChunkData Sample.bye)] in
  Server.up_return r =
    Err (StatusError InvalidArgument "First message must contain file info") ∧
  Server.up_unread r = [Server.Msg (Request_ChunkData Sample.bye)] ∧
  Server.up_response r = None ∧
  Server.storage (Server.up_server r) = Some [] ∧
  Server.up_server r = Server.NewServer [].
Proof.
  intros H env.
  apply (UploadFile_first_message_not_info (impl := H) env (Server.NewServer [])
           (Request_ChunkData Sample.hello)
           [Server.Msg (Request_ChunkData Sample.bye)]
           (Some {| Server.cap := 10; Server.queued := 1 |}));
    reflexivity.
Defined.

(** * Admission control *)

Section AdmissionFacts.

Import Server Concurrent.

Context {St Env : Type} {impl : storage_iface St Env}.

Implicit Types (s : server St) (y : system (St := St)) (k : op).

Lemma semaphore_set_eq k ch s : semaphore k (set_semaphore k ch s) = ch.
Proof. by destruct k. Qed.

Lemma semaphore_set_ne k k' ch s :
  k' ≠ k → semaphore k' (set_semaphore k ch s) = semaphore k' s.
Proof. by destruct k, k'. Qed.

Lemma bump_eq f k n : bump f k n k = f (n k).
Proof. unfold bump. by rewrite decide_True. Qed.

Lemma bump_ne f k k' n : k' ≠ k → bump f k n k' = n k'.
Proof. intros. unfold bump. by rewrite decide_False. Qed.

Lemma idle_consistent (sto : St) : consistent (idle sto).
Proof. intros []; simpl; unfold capacity; split; (reflexivity || lia). Qed.

Lemma acquire_consistent y k :
  consistent y →
  acquire k (srv y) =
    if (inflight y k <? capacity k)%nat
    then Some (set_semaphore k
                 (Some {| cap := capacity k; queued := S (inflight y k) |})
                 (srv y))
    else None.
Proof.
  intros Hy. destruct (Hy k) as [Hk _]. unfold acquire. rewrite Hk. simpl.
  by destruct (inflight y k <? capacity k)%nat.
Qed.

Lemma step_consistent y e y' v :
  consistent y → step y e = Some (y', v) → consistent y'.
Proof.
  intros Hy. destruct e as [k | k]; simpl.
  - rewrite (acquire_consistent _ _ Hy).
    destruct (Nat.ltb_spec (inflight y k) (capacity k)) as [Hlt | Hge];
      intros H; inversion H; subst; [| done].
    intros k'. simpl. destruct (decide (k' = k)) as [-> | Hne].
    + rewrite semaphore_set_eq, bump_eq. split; [done | lia].
    + rewrite semaphore_set_ne, bump_ne by done. apply Hy.
  - destruct (inflight y k) as [|n] eqn:Hn; intros H; inversion H; subst.
    intros k'. simpl. unfold release. destruct (decide (k' = k)) as [-> | Hne].
    + rewrite semaphore_set_eq, bump_eq. destruct (Hy k) as [-> Hle].
      rewrite Hn in *. simpl. split; [done | lia].
    + rewrite semaphore_set_ne, bump_ne by done. apply Hy.
Qed.

Lemma run_consistent t : ∀ y y' log,
  consistent y → run y t = Some (y', log) → consistent y'.
Proof.
  induction t as [|e t IH]; intros y y' log Hy; simpl.
  - intros H; by inversion H; subst.
  - destruct (step y e) as [[y1 v]|] eqn:Hstep; [| done].
    destruct (run y1 t) as [[y2 log2]|] eqn:Hrun; [| done].
    intros H; inversion H; subst.
    eapply IH; [| done]. by eapply step_consistent.
Qed.

(** While no call of kind [k] returns, either one of the arriving calls of
    that kind is rejected or all of them are running at the end. *)
Lemma run_rejects_or_counts k t : ∀ y y' log,
  consistent y → run y t = Some (y', log) → Return k ∉ t →
  (Call k, Rejected) ∈ log ∨ inflight y' k = (inflight y k + calls k t)%nat.
Proof.
  induction t as [|e t IH]; intros y y' log Hy; simpl.
  - intros H _; inversion H; subst. right. unfold calls; simpl. lia.
  - destruct (step y e) as [[y1 v]|] eqn:Hstep; [| done].
    destruct (run y1 t) as [[y2 log2]|] eqn:Hrun; [| done].
    intros H Hnot; inversion H; subst.
    assert (Hy1 : consistent y1) by (by eapply step_consistent).
    assert (Hnot' : Return k ∉ t) by (intros ?; apply Hnot; by right).
    destruct (IH _ _ _ Hy1 Hrun Hnot') as [Hrej | Hcount];
      [left; by right |].
    unfold calls in *. rewrite filter_cons.
    destruct e as [k' | k']; simpl in Hstep.
    + rewrite (acquire_consistent _ _ Hy) in Hstep.
      destruct (inflight y k' <? capacity k')%nat;
        inversion Hstep; subst; simpl in *.
      * right. rewrite Hcount. unfold bump.
        destruct (decide (k = k')) as [-> | Hne].
        -- rewrite decide_True by done. simpl. lia.
        -- rewrite decide_False by congruence. lia.
      * destruct (decide (k' = k)) as [-> | Hne].
        -- left. left.
        -- right. rewrite Hcount. rewrite decide_False by congruence. lia.
    + destruct (decide (k' = k)) as [-> | Hne]; [exfalso; apply Hnot; left |].
      destruct (inflight y k'); inversion Hstep; subst; simpl in *.
      right. rewrite Hcount. unfold bump.
      rewrite decide_False by congruence. lia.
Qed.

(** Every handler is its admission [select], its body, and the deferred
    receive: a rejected call returns at once with nothing touched, and on
    every path out of an admitted call the three semaphores are what they
    were before it. *)
Lemma UploadFile_admission env s stream :
  let r := UploadFile env s stream in
  (acquire Upload s = None →
   r = {| up_return :=
            Err (StatusError ResourceExhausted "Max concurrent uploads reached");
          up_server := s; up_unread := stream; up_response := None |}) ∧
  (∀ s1, acquire Upload s = Some s1 →
     up_server r = release Upload (set_storage (storage (up_server r)) s1)) ∧
  (∀ k, semaphore k (up_server r) = semaphore k s).
Proof.
  unfold UploadFile, acquire; simpl.
  destruct (try_send (uploadSemaphore s)) as [sem|] eqn:Hsem.
  - destruct (UploadFile_body env (storage s) stream) as [[[ret sto] rest] resp].
    simpl. split; [done |]. split.
    + intros s1 H; inversion H; subst. reflexivity.
    + intros []; simpl; [by apply try_send_recv | done | done].
  - split; [done |]. split; [done |]. by intros [].
Qed.

Lemma DownloadFile_admission env s id :
  let r := DownloadFile env s id in
  (acquire Download s = None →
   r = {| down_return :=
            Err (StatusError ResourceExhausted "Max concurrent downloads reached");
          down_server := s; down_sent := [] |}) ∧
  (∀ s1, acquire Download s = Some s1 →
     down_server r = release Download (set_storage (storage (down_server r)) s1)) ∧
  (∀ k, semaphore k (down_server r) = semaphore k s).
Proof.
  unfold DownloadFile, acquire; simpl.
  destruct (try_send (downloadSemaphore s)) as [sem|] eqn:Hsem.
  - destruct (DownloadFile_body env (storage s) id) as [[ret sto] sent].
    simpl. split; [done |]. split.
    + intros s1 H; inversion H; subst. reflexivity.
    + intros []; simpl; [done | by apply try_send_recv | done].
  - split; [done |]. split; [done |]. by intros [].
Qed.

Lemma ListFiles_admission env s pageSize pageNumber :
  let r := ListFiles env s pageSize pageNumber in
  (acquire List s = None →
   r = (Err (StatusError ResourceExhausted
               "Max concurrent list requests reached"), s)) ∧
  (∀ s1, acquire List s = Some s1 →
     r.2 = release List (set_storage (storage r.2) s1)) ∧
  (∀ k, semaphore k r.2 = semaphore k s).
Proof.
  unfold ListFiles, acquire; simpl.
  destruct (try_send (listSemaphore s)) as [sem|] eqn:Hsem.
  - destruct (ListFiles_body env (storage s) pageSize pageNumber) as [ret sto].
    simpl. split; [done |]. split.
    + intros s1 H; inversion H; subst. reflexivity.
    + intros []; simpl; [done | done | by apply try_send_recv].
  - split; [done |]. split; [done |]. by intros [].
Qed.

(** A call that finds a free slot runs its handler's body: what the handler
    returns, consumes and sends is what the body does, and the server it
    leaves differs from the one it found in the storage only. *)
Lemma UploadFile_runs_body env s stream s1 :
  acquire Upload s = Some s1 →
  UploadFile env s stream =
    let b := UploadFile_body env (storage s) stream in
    {| up_return := b.1.1.1; up_server := set_storage b.1.1.2 s;
       up_unread := b.1.2; up_response := b.2 |}.
Proof.
  unfold acquire, UploadFile; simpl.
  destruct (try_send (uploadSemaphore s)) as [sem|] eqn:Hsem; [| done].
  intros _. destruct (UploadFile_body env (storage s) stream)
    as [[[ret sto] rest] resp].
  simpl. by rewrite (try_send_recv _ _ Hsem).
Qed.

Lemma DownloadFile_runs_body env s id s1 :
  acquire Download s = Some s1 →
  DownloadFile env s id =
    let b := DownloadFile_body env (storage s) id in
    {| down_return := b.1.1; down_server := set_storage b.1.2 s;
       down_sent := b.2 |}.
Proof.
  unfold acquire, DownloadFile; simpl.
  destruct (try_send (downloadSemaphore s)) as [sem|] eqn:Hsem; [| done].
  intros _. destruct (DownloadFile_body env (storage s) id) as [[ret sto] sent].
  simpl. by rewrite (try_send_recv _ _ Hsem).
Qed.

Lemma ListFiles_runs_body env s pageSize pageNumber s1 :
  acquire List s = Some s1 →
  ListFiles env s pageSize pageNumber =
    let b := ListFiles_body env (storage s) pageSize pageNumber in
    (b.1, set_storage b.2 s).
Proof.
  unfold acquire, ListFiles; simpl.
  destruct (try_send (listSemaphore s)) as [sem|] eqn:Hsem; [| done].
  intros _.
  destruct (ListFiles_body env (storage s) pageSize pageNumber) as [ret sto].
  simpl. by rewrite (try_send_recv _ _ Hsem).
Qed.

(** With a free slot, a working storage and a working stream each handler
    succeeds. *)
Lemma UploadFile_succeeds env s s1 st info chunks id st' :
  acquire Upload s = Some s1 →
  storage s = Some st →
  storage_SaveFile (up_storage env) (InfoFilename info) (concat chunks) st
    = (Ok id, st') →
  up_send env = None →
  let r :=
    UploadFile env s
      (Msg (Request_Info info) :: map (λ c, Msg (Request_ChunkData c)) chunks) in
  up_return r = Ok tt ∧
  up_response r =
    Some {| RespId := id; RespFilename := InfoFilename info;
            RespSize := to_int64 (len (concat chunks));
            RespCreatedAt := up_now env |}.
Proof.
  intros Hacq Hsto Hsave Hsend. rewrite (UploadFile_runs_body _ _ _ _ Hacq).
  unfold UploadFile_body. rewrite Hsto. simpl.
  rewrite UploadFile_loop_chunks. simpl. rewrite Hsave, Hsend. simpl. auto.
Qed.

Lemma DownloadFile_succeeds env s s1 st id data st' :
  acquire Download s = Some s1 →
  storage s = Some st →
  storage_GetFile (down_storage env) id st = (Ok data, st') →
  (∀ j, down_send env j = None) →
  let r := DownloadFile env s id in
  down_return r = Ok tt ∧ concat (down_sent r) = data.
Proof.
  intros Hacq Hsto Hget Hsend. rewrite (DownloadFile_runs_body _ _ _ _ Hacq).
  unfold DownloadFile_body. rewrite Hsto, Hget.
  destruct (DownloadFile_loop_all_sent (down_send env) (1024 * 1024) data
              Hsend eq_refl (length data) 0 []) as (new & Hloop & Hcat & _);
    [done | unfold len; lia |].
  rewrite Hloop. simpl. by rewrite Hcat.
Qed.

Lemma ListFiles_succeeds env s s1 st pageSize pageNumber files total st' :
  acquire List s = Some s1 →
  storage s = Some st →
  storage_ListFiles env pageSize pageNumber st = (Ok (files, total), st') →
  (ListFiles env s pageSize pageNumber).1 =
    Ok {| Files := files; TotalCount := total |}.
Proof.
  intros Hacq Hsto Hlist. rewrite (ListFiles_runs_body _ _ _ _ _ Hacq).
  unfold ListFiles_body. by rewrite Hsto, Hlist.
Qed.

Lemma run_storage t : ∀ y0 y log,
  run y0 t = Some (y, log) → storage (srv y) = storage (srv y0).
Proof.
  induction t as [|e t IH]; intros y0 y log; simpl.
  { by intros [= <- <-]. }
  destruct (step y0 e) as [[y1 v]|] eqn:Hstep; [| done].
  destruct (run y1 t) as [[y2 log2]|] eqn:Hrun; [| done].
  intros [= <- <-]. rewrite (IH _ _ _ Hrun).
  destruct e as [k | k]; simpl in Hstep.
  - unfold acquire in Hstep.
    destruct (try_send (semaphore k (srv y0))); injection Hstep as <- _;
      [by destruct k | done].
  - destruct (inflight y0 k); [done |]. injection Hstep as <- _.
    by destruct k.
Qed.

(** C8: the pools of a server built by [NewServer] hold 10, 10 and 100 slots.
    In every interleaving of arrivals and terminations the semaphore of kind
    [k] holds one element per running call of that kind, never more than the
    capacity.  If within an interleaving no call of kind [k] terminates and
    more than [capacity k] of them arrive, one of them is rejected; a
    rejected arrival changes nothing (nothing is queued).  Once no call of
    kind [k] is running the next arrival is admitted.  At the level of the
    handlers: a rejected call returns the resource-exhausted status with the
    server, the stream and the storage untouched, and every path out of an
    admitted call runs the deferred receive, so the semaphores are then what
    they were before the call.  A fresh call succeeds: once no call of kind
    [k] is running, the admission [select] of that kind's handler finds a free
    slot on every server that holds this semaphore; a handler that finds a
    free slot runs its body; and with a storage and a stream that work the
    body ends without error, the upload with its response, the download with
    the whole blob sent, the listing with the storage's page. *)
Theorem admission_bound (sto : St) k t0 y0 log0 t y log :
  run (idle sto) t0 = Some (y0, log0) →
  run y0 t = Some (y, log) →
  (capacity Upload = 10 ∧ capacity Download = 10 ∧ capacity List = 100)%nat ∧
  semaphore k (NewServer sto) = make_chan (capacity k) ∧
  semaphore k (srv y) = Some {| cap := capacity k; queued := inflight y k |} ∧
  (inflight y k ≤ capacity k)%nat ∧
  (Return k ∉ t → (capacity k < calls k t)%nat → (Call k, Rejected) ∈ log) ∧
  (∀ y1 y2, step y1 (Call k) = Some (y2, Rejected) → y2 = y1) ∧
  (inflight y k = 0%nat → ∃ y', step y (Call k) = Some (y', Accepted)) ∧
  (∀ env s stream,
     let r := UploadFile env s stream in
     (acquire Upload s = None →
      r = {| up_return :=
               Err (StatusError ResourceExhausted "Max concurrent uploads reached");
             up_server := s; up_unread := stream; up_response := None |}) ∧
     ∀ k', semaphore k' (up_server r) = semaphore k' s) ∧
  (∀ env s id,
     let r := DownloadFile env s id in
     (acquire Download s = None →
      r = {| down_return :=
               Err (StatusError ResourceExhausted
                      "Max concurrent downloads reached");
             down_server := s; down_sent := [] |}) ∧
     ∀ k', semaphore k' (down_server r) = semaphore k' s) ∧
  (∀ env s pageSize pageNumber,
     let r := ListFiles env s pageSize pageNumber in
     (acquire List s = None →
      r = (Err (StatusError ResourceExhausted
                  "Max concurrent list requests reached"), s)) ∧
     ∀ k', semaphore k' r.2 = semaphore k' s) ∧
  storage (srv y) = Some sto ∧
  (inflight y k = 0%nat →
   ∀ s, semaphore k s = semaphore k (srv y) → ∃ s1, acquire k s = Some s1) ∧
  (∀ env s stream s1,
     acquire Upload s = Some s1 →
     UploadFile env s stream =
       let b := UploadFile_body env (storage s) stream in
       {| up_return := b.1.1.1; up_server := set_storage b.1.1.2 s;
          up_unread := b.1.2; up_response := b.2 |}) ∧
  (∀ env s id s1,
     acquire Download s = Some s1 →
     DownloadFile env s id =
       let b := DownloadFile_body env (storage s) id in
       {| down_return := b.1.1; down_server := set_storage b.1.2 s;
          down_sent := b.2 |}) ∧
  (∀ env s pageSize pageNumber s1,
     acquire List s = Some s1 →
     ListFiles env s pageSize pageNumber =
       let b := ListFiles_body env (storage s) pageSize pageNumber in
       (b.1, set_storage b.2 s)) ∧
  (∀ env s s1 st info chunks id st',
     acquire Upload s = Some s1 →
     storage s = Some st →
     storage_SaveFile (up_storage env) (InfoFilename info) (concat chunks) st
       = (Ok id, st') →
     up_send env = None →
     let r :=
       UploadFile env s
         (Msg (Request_Info info)
          :: map (λ c, Msg (Request_ChunkData c)) chunks) in
     up_return r = Ok tt ∧
     up_response r =
       Some {| RespId := id; RespFilename := InfoFilename info;
               RespSize := to_int64 (len (concat chunks));
               RespCreatedAt := up_now env |}) ∧
  (∀ env s s1 st id data st',
     acquire Download s = Some s1 →
     storage s = Some st →
     storage_GetFile (down_storage env) id st = (Ok data, st') →
     (∀ j, down_send env j = None) →
     let r := DownloadFile env s id in
     down_return r = Ok tt ∧ concat (down_sent r) = data) ∧
  (∀ env s s1 st pageSize pageNumber files total st',
     acquire List s = Some s1 →
     storage s = Some st →
     storage_ListFiles env pageSize pageNumber st = (Ok (files, total), st') →
     (ListFiles env s pageSize pageNumber).1 =
       Ok {| Files := files; TotalCount := total |}).
Proof.
  intros Hrun0 Hrun.
  assert (Hy0 : consistent y0) by (eapply run_consistent, Hrun0; apply idle_consistent).
  assert (Hy : consistent y) by (eapply run_consistent, Hrun; apply Hy0).
  split; [done |]. split; [by destruct k |].
  split; [apply Hy |]. split; [apply Hy |]. split; [| split; [| split]].
  - intros Hnot Hmany.
    destruct (run_rejects_or_counts k t _ _ _ Hy0 Hrun Hnot) as [? | Hcount];
      [done |].
    destruct (Hy k) as [_ Hle]. lia.
  - intros y1 y2; simpl.
    destruct (acquire k (srv y1)); intros H; by inversion H.
  - intros Hzero. simpl. rewrite (acquire_consistent _ _ Hy), Hzero.
    destruct k; simpl; eauto.
  - split; [| split; [| split; [| split; [| split]]]].
    + intros. pose proof (UploadFile_admission env s stream) as (? & _ & ?).
      by split.
    + intros. pose proof (DownloadFile_admission env s id) as (? & _ & ?).
      by split.
    + intros.
      pose proof (ListFiles_admission env s pageSize pageNumber) as (? & _ & ?).
      by split.
    + by rewrite (run_storage _ _ _ _ Hrun), (run_storage _ _ _ _ Hrun0).
    + intros Hzero s Hsem. unfold acquire. rewrite Hsem.
      destruct (Hy k) as [-> _]. rewrite Hzero. destruct k; simpl; eauto.
    + split; [apply UploadFile_runs_body |].
      split; [apply DownloadFile_runs_body |].
      split; [apply ListFiles_runs_body |].
      split; [apply UploadFile_succeeds |].
      split; [apply DownloadFile_succeeds | apply ListFiles_succeeds].
Qed.

(** C10: when [Serve] gets its listener, the service it registers is the
    zero-value server, not its receiver: nil storage and nil semaphores.  On
    that server the admission [select] of every handler takes its default
    branch, so each call returns the resource-exhausted status at once, reads
    nothing from its stream, sends nothing, and leaves the server as it is;
    no method of a storage engine runs. *)
Theorem Serve_registers_zero_server listen serve s registered :
  (Serve listen serve s).2 = Some registered →
  registered = zero_server ∧
  storage registered = None ∧
  (∀ k, semaphore k registered = None) ∧
  (∀ env stream,
     UploadFile env registered stream =
       {| up_return :=
            Err (StatusError ResourceExhausted "Max concurrent uploads reached");
          up_server := registered; up_unread := stream; up_response := None |}) ∧
  (∀ env id,
     DownloadFile env registered id =
       {| down_return :=
            Err (StatusError ResourceExhausted "Max concurrent downloads reached");
          down_server := registered; down_sent := [] |}) ∧
  (∀ env pageSize pageNumber,
     ListFiles env registered pageSize pageNumber =
       (Err (StatusError ResourceExhausted
               "Max concurrent list requests reached"), registered)).
Proof.
  unfold Serve. destruct listen as [err|]; simpl; [done |].
  destruct serve; simpl; intros H; inversion H; subst;
    (split; [done |]; split; [done |]; split; [by intros [] |]; done).
Qed.

End AdmissionFacts.

Section ListingFacts.

Import Storage.

Lemma to_int_id z : is_int64 z → to_int z = z.
Proof. unfold is_int64, to_int, wrap. intros. rewrite Z.mod_small; lia. Qed.

Lemma to_int32_id z : is_int32 z → to_int32 z = z.
Proof. unfold is_int32, to_int32, wrap. intros. rewrite Z.mod_small; lia. Qed.

(** The loop appends the entries whose position in the iteration lies in the
    window from [start] to [end_]; its early exit skips none of them. *)
Lemma ListFiles_loop_window start end_ todo : ∀ i files,
  ListFiles_loop todo i start end_ files =
  files ++ take (Z.to_nat (end_ - Z.max start i))
             (drop (Z.to_nat (start - i)) todo).
Proof.
  induction todo as [|file rest IH]; intros i files; simpl.
  { by rewrite drop_nil, take_nil, app_nil_r. }
  destruct (Z.leb_spec start i) as [Hs | Hs];
    destruct (Z.ltb_spec i end_) as [He | He]; simpl;
    destruct (Z.leb_spec end_ (i + 1)) as [Hx | Hx]; try lia.
  - replace (Z.to_nat (start - i)) with 0%nat by lia.
    replace (Z.to_nat (end_ - Z.max start i)) with 1%nat by lia.
    simpl. by rewrite take_0.
  - rewrite IH.
    replace (Z.to_nat (start - (i + 1))) with 0%nat by lia.
    replace (Z.to_nat (start - i)) with 0%nat by lia.
    replace (Z.to_nat (end_ - Z.max start i))
      with (S (Z.to_nat (end_ - Z.max start (i + 1)))) by lia.
    simpl. by rewrite <- app_assoc.
  - replace (Z.to_nat (end_ - Z.max start i)) with 0%nat by lia.
    by rewrite take_0, app_nil_r.
  - replace (Z.to_nat (end_ - Z.max start i)) with 0%nat by lia.
    by rewrite take_0, app_nil_r.
  - rewrite IH.
    replace (Z.to_nat (start - i)) with (S (Z.to_nat (start - (i + 1)))) by lia.
    replace (Z.max start (i + 1)) with (Z.max start i) by lia.
    reflexivity.
  - replace (Z.to_nat (end_ - Z.max start i)) with 0%nat by lia.
    by rewrite take_0, app_nil_r.
Qed.

Lemma ListFiles_unfold order pageSize pageNumber s :
  is_int32 pageSize → is_int32 pageNumber →
  Z.of_nat (size (files s)) < 2 ^ 31 →
  let n := Z.of_nat (size (files s)) in
  let start := pageSize * (pageNumber - 1) in
  ListFiles order pageSize pageNumber s =
    if (pageSize <? 0) || (n <? start)
    then Panic "makeslice: cap out of range"
    else Ok (take (Z.to_nat (Z.min (start + pageSize) n - Z.max start 0))
               (drop (Z.to_nat start) order.*2), n).
Proof.
  intros Hps Hpn Hn n start. unfold is_int32 in Hps, Hpn.
  unfold ListFiles. fold n.
  assert (Hstart : - (2 ^ 31 * (2 ^ 31 + 1)) <= start <= 2 ^ 31 * (2 ^ 31 + 1))
    by (subst start; nia).
  rewrite (to_int_id (pageNumber - 1)) by (unfold is_int64; lia).
  fold start. rewrite (to_int_id start) by (unfold is_int64; lia).
  rewrite (to_int_id (start + pageSize)) by (unfold is_int64; lia).
  rewrite (to_int32_id n) by (unfold is_int32; lia).
  rewrite ListFiles_loop_window.
  destruct (Z.ltb_spec n (start + pageSize)) as [Hclamp | Hclamp].
  - rewrite (to_int_id (n - start)) by (unfold is_int64; lia).
    destruct (Z.ltb_spec (n - start) 0), (Z.ltb_spec pageSize 0),
      (Z.ltb_spec n start); simpl; try lia; try reflexivity.
    all: rewrite Z.sub_0_r; by replace (Z.min (start + pageSize) n) with n by lia.
  - rewrite (to_int_id (start + pageSize - start)) by (unfold is_int64; lia).
    destruct (Z.ltb_spec (start + pageSize - start) 0), (Z.ltb_spec pageSize 0),
      (Z.ltb_spec n start); simpl; try lia; try reflexivity.
    all: rewrite Z.sub_0_r;
      by replace (Z.min (start + pageSize) n) with (start + pageSize) by lia.
Qed.

(** What [ListFiles] does on a request from page one on, or for a page size
    of at most the catalog size (either way the capacity asked of [make] is
    at most the catalog size): it panics exactly when the page size is
    negative or the start index lies beyond the catalog, and otherwise returns
    the entries at the window's positions in this call's iteration order
    together with the catalog size. *)
Theorem ListFiles_window order pageSize pageNumber s :
  is_int32 pageSize → is_int32 pageNumber →
  Z.of_nat (size (files s)) < 2 ^ 31 →
  1 <= pageNumber ∨ pageSize <= Z.of_nat (size (files s)) →
  let n := Z.of_nat (size (files s)) in
  let start := pageSize * (pageNumber - 1) in
  ListFiles order pageSize pageNumber s =
    if (pageSize <? 0) || (n <? start)
    then Panic "makeslice: cap out of range"
    else Ok (take (Z.to_nat (Z.min (start + pageSize) n - Z.max start 0))
               (drop (Z.to_nat start) order.*2), n).
Proof. intros Hps Hpn Hn _. by apply ListFiles_unfold. Qed.

Lemma concat_pages {A} (c : nat) : ∀ (k : nat) (l : list A),
  (0 < c)%nat → (length l ≤ k * c)%nat →
  concat (map (λ q, take c (drop (q * c) l)) (seq 0 k)) = l.
Proof.
  induction k as [|k IH]; intros l Hc Hl; simpl.
  - destruct l; [done | simpl in Hl; lia].
  - rewrite <- seq_shift, map_map.
    transitivity (take c l ++ drop c l); [| apply take_drop]. f_equal.
    transitivity (concat (map (λ q, take c (drop (q * c) (drop c l))) (seq 0 k)));
      [| apply IH; [done | rewrite length_drop; lia]].
    f_equal. apply map_ext. intros q. rewrite drop_drop. do 2 f_equal; lia.
Qed.

(** When every call iterates the catalog in one and the same order, the pages
    1..ceil(N / pageSize) all return, each reports the catalog size N, and
    laid end to end they are exactly that iteration: every catalog entry once. *)
Theorem ListFiles_pages_cover_fixed_order order pageSize s :
  iteration_of (files s) order →
  0 < pageSize → is_int32 pageSize →
  Z.of_nat (size (files s)) < 2 ^ 31 →
  let n := Z.of_nat (size (files s)) in
  let k := page_count n pageSize in
  (∀ p, 1 <= p <= k → ∃ entries, ListFiles order pageSize p s = Ok (entries, n)) ∧
  concat (map (λ p, page order pageSize (Z.of_nat p) s) (seq 1 (Z.to_nat k)))
    = order.*2 ∧
  order.*2 ≡ₚ (map_to_list (files s)).*2.
Proof.
  intros Hperm Hpos Hps Hn n k.
  assert (Hlen : Z.of_nat (length order.*2) = n).
  { rewrite length_fmap. unfold iteration_of in Hperm. rewrite Hperm.
    by rewrite length_map_to_list. }
  assert (Hk : pageSize * k <= n + pageSize - 1 < pageSize * k + pageSize).
  { subst k. unfold page_count.
    pose proof (Z.div_mod (n + pageSize - 1) pageSize ltac:(lia)).
    pose proof (Z.mod_pos_bound (n + pageSize - 1) pageSize Hpos). lia. }
  assert (Hk0 : 0 <= k) by nia.
  assert (Hkn : k <= n) by nia.
  assert (Hpage : ∀ p, 1 <= p <= k →
    ListFiles order pageSize p s =
      Ok (take (Z.to_nat pageSize)
            (drop (Z.to_nat (p - 1) * Z.to_nat pageSize) order.*2), n)).
  { intros p Hp. unfold is_int32 in Hps.
    rewrite ListFiles_unfold by (unfold is_int32; lia). fold n.
    assert (0 <= pageSize * (p - 1) < n) by nia.
    destruct (Z.ltb_spec pageSize 0), (Z.ltb_spec n (pageSize * (p - 1)));
      simpl; try lia.
    do 2 f_equal.
    replace (Z.to_nat (p - 1) * Z.to_nat pageSize)%nat
      with (Z.to_nat (pageSize * (p - 1))) by nia.
    destruct (Z.le_gt_cases (pageSize * (p - 1) + pageSize) n).
    - f_equal. lia.
    - rewrite !take_ge; [done | |]; rewrite length_drop; lia. }
  split; [| split].
  - intros p Hp. eexists. by apply Hpage.
  - rewrite <- seq_shift, map_map.
    etransitivity;
      [| apply (concat_pages (Z.to_nat pageSize) (Z.to_nat k) order.*2); nia].
    f_equal. apply map_ext_in. intros q Hq%in_seq. unfold page.
    rewrite Hpage by lia. do 2 f_equal; lia.
  - unfold iteration_of in Hperm. by rewrite Hperm.
Qed.

End ListingFacts.

(** * Worked cases *)

(** The chunking loop with a chunk size of two bytes. *)
Example DownloadFile_loop_hello :
  Server.DownloadFile_loop 5 (λ _, None) 2 Sample.hello 0 [] =
  (None, [[Byte.x68; Byte.x65]; [Byte.x6c; Byte.x6c]; [Byte.x6f]]).
Proof. reflexivity. Qed.

(** The same loop when the second send fails. *)
Example DownloadFile_loop_send_fails :
  Server.DownloadFile_loop 5
    (λ k, if decide (k = 1%nat) then Some (TransportError "closed") else None)
    2 Sample.hello 0 [] =
  (Some (TransportError "closed"), [[Byte.x68; Byte.x65]]).
Proof. reflexivity. Qed.

(** The scenario of the specification: one save, then a read and a listing. *)
Example save_get_list :
  let st := Sample.save 1 0 "a.txt" Sample.hello Sample.fresh in
  Storage.GetFile Sample.join "1" st = Ok Sample.hello ∧
  Storage.ListFiles [("1", Sample.entry_a)] 10 1 (Storage.engine st) =
    Ok ([Sample.entry_a], 1).
Proof. vm_compute. auto. Qed.

(** The listing test of the engine: five entries, pages of three. *)
Example ListFiles_five_by_three order :
  Storage.iteration_of (Storage.files (Storage.engine Sample.five_files)) order →
  ∃ p1 p2,
    Storage.ListFiles order 3 1 (Storage.engine Sample.five_files) = Ok (p1, 5) ∧
    Storage.ListFiles order 3 2 (Storage.engine Sample.five_files) = Ok (p2, 5) ∧
    length p1 = 3%nat ∧ length p2 = 2%nat.
Proof.
  intros Hperm.
  assert (Hlen : length order = 5%nat).
  { unfold Storage.iteration_of in Hperm. rewrite Hperm.
    rewrite length_map_to_list. by vm_compute. }
  do 6 (destruct order as [|? order]; simpl in Hlen; try lia).
  do 2 eexists. split; [by vm_compute |]. split; [by vm_compute |]. done.
Qed.

(** An upload of two chunks through the server into the disk-backed engine,
    then its download. *)
Example upload_then_download :
  let H := Main.disk_storage Sample.join in
  let up :=
    Server.UploadFile
      {| Server.up_storage :=
           {| Main.save := Sample.at_time 1 0; Main.order := [] |};
         Server.up_now := 0; Server.up_send := None |}
      (Main.main_server ∅)
      [Server.Msg (Request_Info {| InfoFilename := "a.txt";
                                   InfoContentType := "text/plain" |});
       Server.Msg (Request_ChunkData Sample.hello);
       Server.Msg (Request_ChunkData Sample.bye)] in
  let down :=
    Server.DownloadFile
      {| Server.down_storage :=
           {| Main.save := Sample.at_time 2 0; Main.order := [] |};
         Server.down_send := λ _, None |}
      (Server.up_server up) "1" in
  Server.up_return up = Ok tt ∧
  Server.up_response up =
    Some {| RespId := "1"; RespFilename := "a.txt"; RespSize := 8;
            RespCreatedAt := 0 |} ∧
  Server.down_return down = Ok tt ∧
  Server.down_sent down = [Sample.hello ++ Sample.bye].
Proof. vm_compute. auto. Qed.

(** Eleven uploads arrive at an idle server before any terminates: ten are
    admitted and the eleventh is rejected; when the ten have terminated the
    semaphore is empty and a twelfth call is admitted. *)
Example eleven_uploads :
  let t :=
    replicate 11 (Concurrent.Call Concurrent.Upload)
    ++ replicate 10 (Concurrent.Return Concurrent.Upload)
    ++ [Concurrent.Call Concurrent.Upload] in
  (λ r, (Concurrent.semaphore Concurrent.Upload (Concurrent.srv r.1), r.2.*2))
    <$> Concurrent.run (Concurrent.idle tt) t
  = Some (Some {| Server.cap := 10; Server.queued := 1 |},
          replicate 10 Concurrent.Accepted ++ [Concurrent.Rejected]
          ++ replicate 10 Concurrent.Released ++ [Concurrent.Accepted]).
Proof. vm_compute. reflexivity. Qed.

(** * Instances of the conditional theorems *)

(** The blob of one saved file comes back as a single chunk. *)
Lemma DownloadFile_chunks_witness :
  let H := Main.disk_storage Sample.join in
  let r :=
    Server.DownloadFile
      {| Server.down_storage :=
           {| Main.save := Sample.at_time 2 0; Main.order := [] |};
         Server.down_send := λ _, None |}
      (Server.NewServer (Sample.save 1 0 "a.txt" Sample.hello Sample.fresh))
      "1" in
  Server.down_return r = Ok tt ∧
  concat (Server.down_sent r) = Sample.hello ∧
  Server.down_sent r ≠ [].
Proof.
  intros H r.
  destruct (DownloadFile_chunks (impl := H)
              {| Server.down_storage :=
                   {| Main.save := Sample.at_time 2 0; Main.order := [] |};
                 Server.down_send := λ _, None |}
              (Server.NewServer (Sample.save 1 0 "a.txt" Sample.hello Sample.fresh))
              "1"
              (Some {| Server.cap := 10; Server.queued := 1 |})
              (Sample.save 1 0 "a.txt" Sample.hello Sample.fresh)
              Sample.hello
              (Sample.save 1 0 "a.txt" Sample.hello Sample.fresh))
    as (Hret & Hcat & _ & Hne).
  - reflexivity.
  - reflexivity.
  - vm_compute. reflexivity.
  - intros k. reflexivity.
  - split; [exact Hret |]. split; [exact Hcat |]. apply Hne. discriminate.
Defined.

(** Eleven simultaneous uploads on a fresh server: one is rejected.  And
    when an upload that was admitted has terminated, no upload is running and
    a fresh upload of two chunks on that server returns without error. *)
Lemma admission_bound_witness :
  (∃ y0 log0,
     Concurrent.run (Concurrent.idle ([] : list Mock.call))
       (replicate 11 (Concurrent.Call Concurrent.Upload)) = Some (y0, log0) ∧
     (Concurrent.Call Concurrent.Upload, Concurrent.Rejected) ∈ log0) ∧
  (∃ y1 log1 y log,
     Concurrent.run (Concurrent.idle ([] : list Mock.call))
       [Concurrent.Call Concurrent.Upload] = Some (y1, log1) ∧
     Concurrent.run y1 [Concurrent.Return Concurrent.Upload] = Some (y, log) ∧
     Concurrent.inflight y Concurrent.Upload = 0%nat ∧
     Server.up_return
       (@Server.UploadFile _ _ Mock.mockStorage
          {| Server.up_storage :=
               {| Mock.ret_SaveFile := Ok "123"; Mock.ret_GetFile := Ok [];
                  Mock.ret_ListFiles := Ok ([], 0) |};
             Server.up_now := 0; Server.up_send := None |}
          (Concurrent.srv y)
          (Server.Msg (Request_Info {| InfoFilename := "test.jpg";
                                       InfoContentType := "image/jpeg" |})
           :: map (λ c, Server.Msg (Request_ChunkData c))
                [Sample.hello; Sample.bye]))
     = Ok tt).
Proof.
  split.
  - destruct (Concurrent.run (Concurrent.idle ([] : list Mock.call))
                (replicate 11 (Concurrent.Call Concurrent.Upload)))
      as [[y0 log0]|] eqn:Hrun0; [| vm_compute in Hrun0; discriminate].
    exists y0, log0. split; [reflexivity |].
    destruct (admission_bound (impl := Mock.mockStorage) [] Concurrent.Upload
                [] (Concurrent.idle []) []
                (replicate 11 (Concurrent.Call Concurrent.Upload)) y0 log0
                eq_refl Hrun0)
      as (_ & _ & _ & _ & Hrej & _).
    apply Hrej.
    + intros [Heq _]%elem_of_replicate. discriminate.
    + vm_compute. lia.
  - destruct (Concurrent.run (Concurrent.idle ([] : list Mock.call))
                [Concurrent.Call Concurrent.Upload])
      as [[y1 log1]|] eqn:Hrun1; [| vm_compute in Hrun1; discriminate].
    assert (Hy1 := Hrun1). vm_compute in Hy1. injection Hy1 as Hy1 _.
    destruct (Concurrent.run y1 [Concurrent.Return Concurrent.Upload])
      as [[y log]|] eqn:Hrun;
      [| rewrite <- Hy1 in Hrun; vm_compute in Hrun; discriminate].
    assert (Hzero : Concurrent.inflight y Concurrent.Upload = 0%nat).
    { assert (Hy := Hrun). rewrite <- Hy1 in Hy. vm_compute in Hy.
      injection Hy as <- _. reflexivity. }
    exists y1, log1, y, log.
    split; [reflexivity |]. split; [exact Hrun |]. split; [exact Hzero |].
    destruct (admission_bound (impl := Mock.mockStorage) [] Concurrent.Upload
                [Concurrent.Call Concurrent.Upload] y1 log1
                [Concurrent.Return Concurrent.Upload] y log Hrun1 Hrun)
      as (_ & _ & _ & _ & _ & _ & _ & _ & _ & _ & Hsto & Hfree & _ & _ & _
          & Hup & _).
    destruct (Hfree Hzero (Concurrent.srv y) eq_refl) as [s1 Hacq].
    apply (Hup _ (Concurrent.srv y) s1 [] _ [Sample.hello; Sample.bye] "123"
             [Mock.Called_SaveFile "test.jpg"
                (concat [Sample.hello; Sample.bye])]
             Hacq Hsto); reflexivity.
Defined.

(** The server of [main], once served, answers a listing request with the
    resource-exhausted status. *)
Lemma Serve_registers_zero_server_witness :
  let H := Main.disk_storage Sample.join in
  (Server.Serve None None (Main.main_server ∅)).2 = Some Server.zero_server ∧
  Server.ListFiles
    {| Main.save := Sample.at_time 1 0; Main.order := [] |}
    Server.zero_server 10 1 =
  (Err (StatusError ResourceExhausted "Max concurrent list requests reached"),
   Server.zero_server).
Proof.
  intros H. split; [reflexivity |].
  destruct (Serve_registers_zero_server (impl := H) None None
              (Main.main_server ∅) Server.zero_server eq_refl)
    as (_ & _ & _ & _ & _ & Hlist).
  apply Hlist.
Defined.

(** The catalog after two saves satisfies the invariant of reachable states. *)
Lemma reachable_catalog_invariant_witness :
  Storage.directory (Storage.engine Sample.two_files) = "./storage" ∧
  ∀ k m, Storage.files (Storage.engine Sample.two_files) !! k = Some m →
    Id m = k ∧ UpdatedAt m = CreatedAt m ∧
    is_Some (Storage.disk Sample.two_files !! Sample.join "./storage" k).
Proof.
  apply (reachable_catalog_invariant Sample.join "./storage" Sample.two_files).
  unfold Sample.two_files, Sample.save.
  apply Storage.reachable_save, Storage.reachable_save, Storage.reachable_new.
Defined.

(** The second of two saves keeps the entry of the first. *)
Lemma SaveFile_keeps_entries_witness :
  dom (Storage.files (Storage.engine
         (Sample.save 1 0 "a.txt" Sample.hello Sample.fresh)))
    ⊆ dom (Storage.files (Storage.engine Sample.two_files)).
Proof.
  apply (SaveFile_keeps_entries Sample.join (Sample.at_time 2 0) "b.txt"
           Sample.bye (Sample.save 1 0 "a.txt" Sample.hello Sample.fresh)
           (Ok "2") Sample.two_files).
  vm_compute. reflexivity.
Defined.

(** Saves at nanoseconds 1 and 2 return different identifiers. *)
Lemma SaveFile_ids_differ_iff_witness :
  "1" ≠ "2" ↔
  Storage.now_nano (Sample.at_time 1 0) ≠ Storage.now_nano (Sample.at_time 2 0).
Proof.
  apply (SaveFile_ids_differ_iff Sample.join (Sample.at_time 1 0)
           (Sample.at_time 2 0) "a.txt" Sample.hello "b.txt" Sample.bye
           Sample.fresh (Sample.save 1 0 "a.txt" Sample.hello Sample.fresh)
           Sample.two_files "1" "2");
    vm_compute; reflexivity.
Defined.

(** Page 2 of size 1 over the two-entry catalog is the second entry visited. *)
Lemma ListFiles_window_witness :
  Storage.ListFiles [("1", Sample.entry_a); ("2", Sample.entry_b)] 1 2
    (Storage.engine Sample.two_files)
  = Ok ([Sample.entry_b], 2).
Proof.
  rewrite (ListFiles_window [("1", Sample.entry_a); ("2", Sample.entry_b)] 1 2
             (Storage.engine Sample.two_files)).
  - vm_compute. reflexivity.
  - unfold is_int32. lia.
  - unfold is_int32. lia.
  - vm_compute. reflexivity.
  - left. lia.
Defined.

(** With one iteration order for both calls, pages 1 and 2 of size 1 list the
    two entries once each. *)
Lemma ListFiles_pages_cover_fixed_order_witness :
  concat
    (map (λ p, Storage.page [("1", Sample.entry_a); ("2", Sample.entry_b)] 1
                 (Z.of_nat p) (Storage.engine Sample.two_files))
       (seq 1 2))
  = [Sample.entry_a; Sample.entry_b].
Proof.
  destruct (ListFiles_pages_cover_fixed_order
              [("1", Sample.entry_a); ("2", Sample.entry_b)] 1
              (Storage.engine Sample.two_files)) as (_ & Hcat & _).
  - unfold Storage.iteration_of.
    replace (map_to_list (Storage.files (Storage.engine Sample.two_files)))
      with [("1", Sample.entry_a); ("2", Sample.entry_b)]
      by (vm_compute; reflexivity).
    reflexivity.
  - lia.
  - unfold is_int32. lia.
  - vm_compute. reflexivity.
  - exact Hcat.
Defined.

(** A download whose first send fails delivers nothing and releases its slot. *)
Lemma DownloadFile_send_failure_witness :
  let H := Main.disk_storage Sample.join in
  let r :=
    Server.DownloadFile
      {| Server.down_storage :=
           {| Main.save := Sample.at_time 2 0; Main.order := [] |};
         Server.down_send := λ _, Some (TransportError "closed") |}
      (Server.NewServer (Sample.save 1 0 "a.txt" Sample.hello Sample.fresh))
      "1" in
  Server.down_return r = Err (TransportError "closed") ∧
  length (Server.down_sent r) = 0%nat.
Proof.
  intros H r.
  destruct (DownloadFile_send_failure (impl := H)
              {| Server.down_storage :=
                   {| Main.save := Sample.at_time 2 0; Main.order := [] |};
                 Server.down_send := λ _, Some (TransportError "closed") |}
              (Server.NewServer (Sample.save 1 0 "a.txt" Sample.hello Sample.fresh))
              "1"
              (Some {| Server.cap := 10; Server.queued := 1 |})
              (Sample.save 1 0 "a.txt" Sample.hello Sample.fresh)
              Sample.hello
              (Sample.save 1 0 "a.txt" Sample.hello Sample.fresh)
              0%nat (TransportError "closed"))
    as (Hret & Hlen & _).
  - reflexivity.
  - reflexivity.
  - vm_compute. reflexivity.
  - intros k Hk. lia.
  - reflexivity.
  - vm_compute. reflexivity.
  - split; [exact Hret | exact Hlen].
Defined.

(** The "successful upload" case of the server test, on the disk engine. *)
Lemma UploadFile_saves_concatenation_witness :
  let H := Main.disk_storage Sample.join in
  let r :=
    Server.UploadFile
      {| Server.up_storage :=
           {| Main.save := Sample.at_time 1 0; Main.order := [] |};
         Server.up_now := 0; Server.up_send := None |}
      (Main.main_server ∅)
      [Server.Msg (Request_Info {| InfoFilename := "test.jpg";
                                   InfoContentType := "image/jpeg" |});
       Server.Msg (Request_ChunkData Sample.hello);
       Server.Msg (Request_ChunkData Sample.bye)] in
  Server.up_return r = Ok tt ∧
  Server.up_response r =
    Some {| RespId := "1"; RespFilename := "test.jpg"; RespSize := 8;
            RespCreatedAt := 0 |}.
Proof.
  intros H r.
  destruct (UploadFile_saves_concatenation (impl := H)
              {| Server.up_storage :=
                   {| Main.save := Sample.at_time 1 0; Main.order := [] |};
                 Server.up_now := 0; Server.up_send := None |}
              (Main.main_server ∅)
              (Some {| Server.cap := 10; Server.queued := 1 |})
              {| Storage.engine := Storage.NewStorage "./storage";
                 Storage.disk := ∅ |}
              {| InfoFilename := "test.jpg"; InfoContentType := "image/jpeg" |}
              [Sample.hello; Sample.bye] "1"
              (Sample.save 1 0 "test.jpg" (Sample.hello ++ Sample.bye)
                 Sample.fresh))
    as (Hret & Hresp & _).
  - reflexivity.
  - reflexivity.
  - vm_compute. reflexivity.
  - reflexivity.
  - split; [exact Hret | exact Hresp].
Defined.

(** The "file not found" case of the server test, on the mock. *)
Lemma storage_errors_become_status_witness :
  let H := Mock.mockStorage in
  let r :=
    Server.DownloadFile
      {| Server.down_storage :=
           {| Mock.ret_SaveFile := Err Sample.disk_full;
              Mock.ret_GetFile := Err (StatusError NotFound "");
              Mock.ret_ListFiles := Err Sample.disk_full |};
         Server.down_send := λ _, None |}
      (Server.NewServer []) "456" in
  Server.down_return r = Err (StatusError NotFound "File not found") ∧
  Server.down_sent r = [].
Proof.
  intros H r.
  pose (ret :=
    {| Mock.ret_SaveFile := Err Sample.disk_full;
       Mock.ret_GetFile := Err (StatusError NotFound "");
       Mock.ret_ListFiles := Err Sample.disk_full |}).
  destruct (storage_errors_become_status (impl := H)
              {| Server.up_storage := ret; Server.up_now := 0;
                 Server.up_send := None |}
              {| Server.down_storage := ret; Server.down_send := λ _, None |}
              ret (Server.NewServer []) [] eq_refl)
    as (_ & Hdown & _).
  apply (Hdown (Some {| Server.cap := 10; Server.queued := 1 |}) "456"
           (StatusError NotFound "") [Mock.Called_GetFile "456"]);
    reflexivity.
Defined.

(** * The engine over several calls *)

Section EngineRuns.

Import Storage.

Variable Join : string → string → string.

Lemma SaveFile_elsewhere env filename data st :
  let st' := (SaveFile Join env filename data st).2 in
  let id := Sprintf_d (now_nano env) in
  directory (engine st') = directory (engine st) ∧
  (∀ k, k ≠ id → files (engine st') !! k = files (engine st) !! k) ∧
  (∀ p, p ≠ Join (directory (engine st)) id → disk st' !! p = disk st !! p).
Proof.
  unfold SaveFile, WriteFile.
  destruct (write env) as [|e [w|]]; simpl; split_and!; try done;
    intros x Hx; by rewrite lookup_insert_ne.
Qed.

(** Whatever its outcome, a save leaves the directory alone, touches no
    catalog key but the identifier it generated and no path but that
    identifier's blob path. *)
Theorem SaveFile_frame env filename data st :
  let st' := (SaveFile Join env filename data st).2 in
  let id := Sprintf_d (now_nano env) in
  directory (engine st') = directory (engine st) ∧
  (∀ k, k ≠ id → files (engine st') !! k = files (engine st) !! k) ∧
  (∀ p, p ≠ Join (directory (engine st)) id → disk st' !! p = disk st !! p).
Proof. apply SaveFile_elsewhere. Qed.

Lemma SaveFile_preserves_blob env filename data st nano0 blob :
  (∀ a b : Z,
     Join (directory (engine st)) (Sprintf_d a)
       = Join (directory (engine st)) (Sprintf_d b) → a = b) →
  now_nano env ≠ nano0 →
  GetFile Join (Sprintf_d nano0) st = Ok blob →
  GetFile Join (Sprintf_d nano0) (SaveFile Join env filename data st).2 = Ok blob.
Proof.
  intros Hinj Hne.
  destruct (SaveFile_elsewhere env filename data st) as (Hdir & _ & Hdisk).
  unfold GetFile, ReadFile. rewrite Hdir, Hdisk; [done |].
  intros Heq. apply Hne. symmetry. by apply Hinj.
Qed.

(** A stored blob survives every later save, failed ones included, whose
    clock reads another nanosecond, provided the blob paths of different
    readings differ: joining the directory with the decimal renderings of two
    different integers gives two different paths. *)
Theorem SaveFile_blob_survives env filename data st id st1 calls :
  (∀ a b : Z,
     Join (directory (engine st)) (Sprintf_d a)
       = Join (directory (engine st)) (Sprintf_d b) → a = b) →
  SaveFile Join env filename data st = (Ok id, st1) →
  (∀ c, c ∈ calls → now_nano c.1.1 ≠ now_nano env) →
  GetFile Join id (SaveFiles Join calls st1).2 = Ok data.
Proof.
  intros Hinj Hsave Hother.
  assert (Hget : GetFile Join id st1 = Ok data).
  { apply SaveFile_ok_inv in Hsave as (_ & Hdisk & Hdir & _).
    unfold GetFile, ReadFile. rewrite Hdir, Hdisk. by rewrite lookup_insert_eq. }
  assert (Hid : id = Sprintf_d (now_nano env))
    by (by apply SaveFile_ok_inv in Hsave as (-> & _)).
  assert (Hdir1 : directory (engine st1) = directory (engine st))
    by (by apply SaveFile_ok_inv in Hsave as (_ & _ & ? & _)).
  rewrite <- Hdir1 in Hinj. clear Hsave Hdir1.
  revert st1 Hget Hinj.
  induction calls as [|[[env' f'] data'] calls IH]; intros st1 Hget Hinj;
    simpl; [done |].
  pose proof (SaveFile_preserves_blob env' f' data' st1 (now_nano env) data Hinj)
    as Hkeep. rewrite <- Hid in Hkeep.
  destruct (SaveFile_elsewhere env' f' data' st1) as (Hdir & _).
  destruct (SaveFile Join env' f' data' st1) as [r st2]; simpl in *.
  specialize (IH (λ c Hc, Hother c (list_elem_of_further _ _ _ Hc)) st2).
  destruct (SaveFiles Join calls st2) as [rs st3]; simpl in *.
  apply IH.
  - apply Hkeep; [| done]. apply (Hother (env', f', data')). left.
  - by rewrite Hdir.
Qed.

Lemma SaveFiles_all_written calls : ∀ st,
  Forall (λ c, write c.1.1 = WriteOk) calls →
  (SaveFiles Join calls st).1 = (λ c, Ok (Sprintf_d (now_nano c.1.1))) <$> calls ∧
  dom (files (engine (SaveFiles Join calls st).2)) =
    dom (files (engine st)) ∪ list_to_set ((λ c, Sprintf_d (now_nano c.1.1)) <$> calls).
Proof.
  induction calls as [|[[env f] data] calls IH]; intros st Hw; simpl.
  { split; [done | by rewrite (right_id_L ∅ (∪))]. }
  inversion Hw as [|? ? Hw1 Hw2]; subst. simpl in Hw1.
  destruct (SaveFile Join env f data st) as [r st1] eqn:Hsave.
  assert (r = Ok (Sprintf_d (now_nano env)) ∧
          dom (files (engine st1)) =
            {[Sprintf_d (now_nano env)]} ∪ dom (files (engine st))) as [-> Hd1].
  { revert Hsave. unfold SaveFile, WriteFile. rewrite Hw1.
    intros [= <- <-]. simpl. by rewrite dom_insert_L. }
  destruct (IH st1 Hw2) as [Hrs Hdom].
  destruct (SaveFiles Join calls st1) as [rs st2].
  simpl in *. split; [by rewrite Hrs |].
  rewrite Hdom, Hd1. by rewrite (comm_L (∪) {[_]}), <- (assoc_L (∪)).
Qed.

(** Saves on a new engine whose writes succeed and whose clock readings are
    pairwise different all return, with pairwise different identifiers, and
    the catalog then has one entry per save. *)
Theorem SaveFiles_distinct_readings dir d calls :
  Forall (λ c, write c.1.1 = WriteOk) calls →
  NoDup ((λ c, now_nano c.1.1) <$> calls) →
  let run := SaveFiles Join calls {| engine := NewStorage dir; disk := d |} in
  run.1 = (λ c, Ok (Sprintf_d (now_nano c.1.1))) <$> calls ∧
  NoDup run.1 ∧
  size (files (engine run.2)) = length calls.
Proof.
  intros Hw Hnd run.
  destruct (SaveFiles_all_written calls {| engine := NewStorage dir; disk := d |} Hw)
    as [Hrs Hdom]. fold run in Hrs, Hdom.
  assert (Hids : NoDup ((λ c, Sprintf_d (now_nano c.1.1)) <$> calls)).
  { change (NoDup (Sprintf_d ∘ (λ c, now_nano c.1.1) <$> calls)).
    rewrite list_fmap_compose. by apply (NoDup_fmap_2 (pretty : Z → string)). }
  split; [done |]. split.
  - rewrite Hrs.
    change (NoDup (Ok ∘ (λ c, Sprintf_d (now_nano c.1.1)) <$> calls)).
    rewrite list_fmap_compose. apply NoDup_fmap_2; [| done]. by intros ?? [= ->].
  - rewrite <- size_dom, Hdom. simpl. rewrite dom_empty_L, (left_id_L ∅ (∪)).
    rewrite size_list_to_set by done. by rewrite length_fmap.
Qed.

(** A write that fails after [k] bytes leaves those bytes readable under the
    identifier the failed save generated, although the call returned no
    identifier and the catalog has no new entry. *)
Theorem SaveFile_failure_leaves_readable_orphan env e k filename data st :
  write env = WriteFails e (Some k) →
  let st' := (SaveFile Join env filename data st).2 in
  (SaveFile Join env filename data st).1 = Err e ∧
  GetFile Join (Sprintf_d (now_nano env)) st' = Ok (take k data) ∧
  files (engine st') = files (engine st).
Proof.
  intros Hw. unfold SaveFile, WriteFile, GetFile, ReadFile. rewrite Hw. simpl.
  by rewrite lookup_insert_eq.
Qed.

End EngineRuns.

(** * Listing: edge requests and single pages *)

Section ListingEdges.

Import Storage.

(** Requests with an empty window: a page size of zero, a page number below
    one (for a page size of at most the catalog size, so that the capacity
    asked of [make] is), or a start index equal to the catalog size.  Each
    returns no entry and the catalog size; none returns the whole catalog. *)
Theorem ListFiles_empty_window order pageSize pageNumber s :
  is_int32 pageSize → is_int32 pageNumber →
  Z.of_nat (size (files s)) < 2 ^ 31 →
  pageSize = 0
    ∨ (0 < pageSize <= Z.of_nat (size (files s)) ∧ pageNumber <= 0)
    ∨ (0 < pageSize ∧ pageSize * (pageNumber - 1) = Z.of_nat (size (files s))) →
  ListFiles order pageSize pageNumber s = Ok ([], Z.of_nat (size (files s))).
Proof.
  intros Hps Hpn Hn Hcase. rewrite ListFiles_unfold by done.
  unfold is_int32 in *.
  set (n := Z.of_nat (size (files s))) in *.
  set (start := pageSize * (pageNumber - 1)) in *.
  assert (Hn0 : 0 <= n) by (subst n; lia).
  assert (Hstart : pageSize = 0 ∧ start = 0 ∨ 0 < pageSize ∧ start + pageSize <= 0
                   ∨ 0 < pageSize ∧ start = n).
  { destruct Hcase as [-> | [[[? ?] ?] | [? ?]]];
      [left | right; left | right; right]; subst start; split; try done; nia. }
  destruct (Z.ltb_spec pageSize 0), (Z.ltb_spec n start); simpl; try lia.
  replace (Z.to_nat (Z.min (start + pageSize) n - Z.max start 0)) with 0%nat
    by lia.
  by rewrite take_0.
Qed.

(** A page that returns holds catalog entries only, never more than the page
    size, and from page one on exactly as many as the page size and the
    entries left after the start index allow; it reports the catalog size. *)
Theorem ListFiles_page_sound order pageSize pageNumber s entries total :
  iteration_of (files s) order →
  is_int32 pageSize → is_int32 pageNumber →
  Z.of_nat (size (files s)) < 2 ^ 31 →
  ListFiles order pageSize pageNumber s = Ok (entries, total) →
  total = Z.of_nat (size (files s)) ∧
  (∀ m, m ∈ entries → ∃ k, files s !! k = Some m) ∧
  len entries <= pageSize ∧
  (1 <= pageNumber →
   len entries =
     Z.min pageSize (Z.of_nat (size (files s)) - pageSize * (pageNumber - 1))).
Proof.
  intros Hperm Hps Hpn Hn. rewrite ListFiles_unfold by done.
  assert (Hlen : Z.of_nat (length order.*2) = Z.of_nat (size (files s))).
  { rewrite length_fmap. unfold iteration_of in Hperm. rewrite Hperm.
    by rewrite length_map_to_list. }
  unfold is_int32 in *.
  set (n := Z.of_nat (size (files s))) in *.
  set (start := pageSize * (pageNumber - 1)) in *.
  destruct (Z.ltb_spec pageSize 0), (Z.ltb_spec n start); simpl; try done.
  intros [= <- <-]. split; [done |]. split; [| split].
  - intros m Hm%subseteq_take%subseteq_drop.
    apply list_elem_of_fmap in Hm as ([k m'] & -> & Hm).
    exists k. apply elem_of_map_to_list. unfold iteration_of in Hperm.
    by rewrite <- Hperm.
  - unfold len. rewrite length_take, length_drop. lia.
  - intros Hpage. assert (0 <= start) by (subst start; nia).
    unfold len. rewrite length_take, length_drop. lia.
Qed.

(** After one successful save on a new engine, the first page of any positive
    size lists exactly the saved file: its identifier, filename, byte length
    and the save's timestamp twice, with a total of one. *)
Theorem SaveFile_then_ListFiles Join env filename data dir d id st' order
    pageSize :
  SaveFile Join env filename data {| engine := NewStorage dir; disk := d |}
    = (Ok id, st') →
  iteration_of (files (engine st')) order →
  0 < pageSize → is_int32 pageSize →
  ListFiles order pageSize 1 (engine st') =
    Ok ([{| Id := id; Filename := filename; Size := to_int64 (len data);
            CreatedAt := now_unix env; UpdatedAt := now_unix env |}], 1).
Proof.
  intros Hsave Hperm Hpos Hps.
  apply SaveFile_ok_inv in Hsave as (_ & _ & _ & Hfiles). simpl in Hfiles.
  unfold iteration_of in Hperm. rewrite Hfiles in Hperm.
  rewrite insert_empty, map_to_list_singleton in Hperm.
  apply Permutation_singleton_r in Hperm as ->.
  unfold is_int32 in Hps.
  rewrite ListFiles_unfold; rewrite ?Hfiles, ?insert_empty, ?map_size_singleton;
    unfold is_int32; try lia.
  replace (pageSize * (1 - 1)) with 0 by lia. change (Z.of_nat 1) with 1.
  destruct (Z.ltb_spec pageSize 0), (Z.ltb_spec 1 0); simpl; try lia.
  change (Z.pos (Pos.of_succ_nat 0)) with 1.
  replace (Z.to_nat (Z.min (0 + pageSize) 1 - Z.max 0 0)) with 1%nat by lia.
  reflexivity.
Qed.

End ListingEdges.

(** * Uploads: every way out of the handler *)

Section UploadPaths.

Import Server.

Context {St Env : Type} {impl : storage_iface St Env}.

(** The receive loop over messages followed by anything else: the messages
    add their chunk payloads, a message without one adds nothing. *)
Lemma UploadFile_loop_app (reqs : list UploadFileRequest) rest : ∀ data,
  UploadFile_loop ((Msg <$> reqs) ++ rest) data =
  UploadFile_loop rest (data ++ concat (GetChunkData <$> reqs)).
Proof.
  induction reqs as [|req reqs IH]; intros data; simpl.
  - by rewrite app_nil_r.
  - rewrite IH. by rewrite <- app_assoc.
Qed.

(** Only the first message is read for file info.  Whatever the later
    messages are, the bytes saved are their chunk payloads in arrival order (a
    later file-info or empty message contributes none), under the first
    message's filename. *)
Theorem UploadFile_later_messages env (s : server St) sem st info reqs id st' :
  try_send (uploadSemaphore s) = Some sem →
  storage s = Some st →
  storage_SaveFile (up_storage env) (InfoFilename info)
    (concat (GetChunkData <$> reqs)) st = (Ok id, st') →
  up_send env = None →
  let r := UploadFile env s (Msg (Request_Info info) :: (Msg <$> reqs)) in
  up_return r = Ok tt ∧
  up_response r =
    Some {| RespId := id; RespFilename := InfoFilename info;
            RespSize := to_int64 (len (concat (GetChunkData <$> reqs)));
            RespCreatedAt := up_now env |} ∧
  storage (up_server r) = Some st'.
Proof.
  intros Hsem Hsto Hsave Hsend. unfold UploadFile, UploadFile_body.
  rewrite Hsem, Hsto. simpl.
  rewrite <- (app_nil_r (Msg <$> reqs)), UploadFile_loop_app. simpl.
  rewrite Hsave, Hsend. simpl. auto.
Qed.

(** An upload that ends in a receive error stores nothing.  If the first
    receive fails (an empty stream gives [io.EOF]) or a later receive fails
    with anything but [io.EOF], the handler returns that very error, sends no
    response, reads nothing past the failure, and leaves the server, its
    storage included, as it found it. *)
Theorem UploadFile_receive_error env (s : server St) sem :
  try_send (uploadSemaphore s) = Some sem →
  UploadFile env s [] =
    {| up_return := Err EOF; up_server := s; up_unread := [];
       up_response := None |} ∧
  (∀ err rest,
     UploadFile env s (Fail err :: rest) =
       {| up_return := Err err; up_server := s; up_unread := rest;
          up_response := None |}) ∧
  (∀ info reqs err rest,
     is_EOF err = false →
     UploadFile env s
       (Msg (Request_Info info) :: (Msg <$> reqs) ++ Fail err :: rest) =
       {| up_return := Err err; up_server := s; up_unread := rest;
          up_response := None |}).
Proof.
  intros Hsem. unfold UploadFile, UploadFile_body. rewrite Hsem. simpl.
  rewrite (try_send_recv _ _ Hsem).
  split; [by destruct s |]. split; [by destruct s |].
  intros info reqs err rest Herr. rewrite UploadFile_loop_app. simpl.
  rewrite Herr. by destruct s.
Qed.

(** When the save succeeded but the reply cannot be sent, the handler returns
    the send's error and no response reaches the client, yet the save is not
    undone: the storage stays in the state the save left. *)
Theorem UploadFile_reply_failure_keeps_file env (s : server St) sem st info
    reqs id st' err :
  try_send (uploadSemaphore s) = Some sem →
  storage s = Some st →
  storage_SaveFile (up_storage env) (InfoFilename info)
    (concat (GetChunkData <$> reqs)) st = (Ok id, st') →
  up_send env = Some err →
  let r := UploadFile env s (Msg (Request_Info info) :: (Msg <$> reqs)) in
  up_return r = Err err ∧
  up_response r = None ∧
  storage (up_server r) = Some st'.
Proof.
  intros Hsem Hsto Hsave Hsend. unfold UploadFile, UploadFile_body.
  rewrite Hsem, Hsto. simpl.
  rewrite <- (app_nil_r (Msg <$> reqs)), UploadFile_loop_app. simpl.
  rewrite Hsave, Hsend. simpl. auto.
Qed.

End UploadPaths.

(** * The server over the disk-backed engine *)

Section ServerOnDisk.

Import Storage Server.

Variable Join : string → string → string.

Implicit Types (s : server state) (st : state).

(** Downloads and listings are read-only: on every path, rejected, failed,
    panicking or successful, the server they leave, engine and disk and
    semaphores, is the server they found. *)
Theorem DownloadFile_ListFiles_read_only s :
  (∀ env id,
     down_server (@DownloadFile _ _ (Main.disk_storage Join) env s id) = s) ∧
  (∀ env pageSize pageNumber,
     (@ListFiles _ _ (Main.disk_storage Join) env s pageSize pageNumber).2 = s).
Proof.
  split.
  - intros env id. unfold DownloadFile, DownloadFile_body.
    destruct (try_send (downloadSemaphore s)) as [sem|] eqn:Hsem; [| done].
    destruct s as [[st|] up down list]; simpl in *;
      rewrite ?(try_send_recv _ _ Hsem); [| done].
    destruct (GetFile Join id st) as [data | e | msg]; simpl; try done.
    by destruct (DownloadFile_loop _ _ _ _ _ _) as [[err|] sent].
  - intros env pageSize pageNumber. unfold ListFiles, ListFiles_body.
    destruct (try_send (listSemaphore s)) as [sem|] eqn:Hsem; [| done].
    destruct s as [[st|] up down list]; simpl in *;
      rewrite ?(try_send_recv _ _ Hsem); [| done].
    by destruct (Storage.ListFiles _ _ _ _) as [[files total] | e | msg].
Qed.

(** A download of an identifier with no blob at its path is answered with the
    not-found status and no chunk, whether or not the catalog knows the
    identifier. *)
Theorem DownloadFile_missing_blob env s sem st id :
  try_send (downloadSemaphore s) = Some sem →
  storage s = Some st →
  disk st !! Join (directory (engine st)) id = None →
  let r := @DownloadFile _ _ (Main.disk_storage Join) env s id in
  down_return r = Err (StatusError NotFound "File not found") ∧
  down_sent r = [].
Proof.
  intros Hsem Hsto Hnone. unfold DownloadFile, DownloadFile_body.
  rewrite Hsem, Hsto. simpl. unfold GetFile, ReadFile. by rewrite Hnone.
Qed.

(** What a successful upload reports is what the catalog then holds under the
    returned identifier: same id, filename and size.  The creation times are
    two separate clock readings, the save's in the catalog and the handler's
    in the response. *)
Theorem UploadFile_response_matches_catalog env s sem st info chunks :
  try_send (uploadSemaphore s) = Some sem →
  storage s = Some st →
  write (Main.save (up_storage env)) = WriteOk →
  up_send env = None →
  let r :=
    @UploadFile _ _ (Main.disk_storage Join) env s
      (Msg (Request_Info info) :: ((λ c, Msg (Request_ChunkData c)) <$> chunks)) in
  ∃ resp st' m,
    up_return r = Ok tt ∧
    up_response r = Some resp ∧
    storage (up_server r) = Some st' ∧
    files (engine st') !! RespId resp = Some m ∧
    Id m = RespId resp ∧
    Filename m = RespFilename resp ∧ RespFilename resp = InfoFilename info ∧
    Size m = RespSize resp ∧ RespSize resp = to_int64 (len (concat chunks)) ∧
    CreatedAt m = now_unix (Main.save (up_storage env)) ∧
    RespCreatedAt resp = up_now env.
Proof.
  intros Hsem Hsto Hw Hsend. unfold UploadFile, UploadFile_body.
  rewrite Hsem, Hsto. simpl. rewrite UploadFile_loop_chunks. simpl.
  unfold SaveFile, WriteFile. rewrite Hw. simpl. rewrite Hsend. simpl.
  do 3 eexists. do 3 (split; [reflexivity |]). simpl.
  split; [apply lookup_insert_eq |]. by split_and!.
Qed.

(** Upload, then download: the chunks a client uploads come back, as the
    concatenation of the chunks the download sends, under the identifier the
    upload returned. *)
Theorem upload_download_round_trip env_up env_down s sem_up sem_down st info
    chunks :
  try_send (uploadSemaphore s) = Some sem_up →
  try_send (downloadSemaphore s) = Some sem_down →
  storage s = Some st →
  write (Main.save (up_storage env_up)) = WriteOk →
  up_send env_up = None →
  (∀ k, down_send env_down k = None) →
  let up :=
    @UploadFile _ _ (Main.disk_storage Join) env_up s
      (Msg (Request_Info info) :: ((λ c, Msg (Request_ChunkData c)) <$> chunks)) in
  ∃ resp,
    up_return up = Ok tt ∧
    up_response up = Some resp ∧
    let down :=
      @DownloadFile _ _ (Main.disk_storage Join) env_down (up_server up)
        (RespId resp) in
    down_return down = Ok tt ∧
    concat (down_sent down) = concat chunks.
Proof.
  intros Hup Hdown Hsto Hw Hsend Hsends.
  unfold UploadFile, UploadFile_body.
  rewrite Hup, Hsto. simpl. rewrite UploadFile_loop_chunks. simpl.
  unfold SaveFile, WriteFile. rewrite Hw. simpl. rewrite Hsend. simpl.
  eexists. split; [reflexivity |]. split; [reflexivity |]. simpl.
  unfold DownloadFile, DownloadFile_body. simpl. rewrite Hdown. simpl.
  unfold GetFile, ReadFile. simpl. rewrite lookup_insert_eq.
  destruct (DownloadFile_loop_all_sent (down_send env_down) (1024 * 1024)
              (concat chunks) Hsends eq_refl (length (concat chunks)) 0 [])
    as (new & Hloop & Hcat & _); [done | unfold len; lia |].
  rewrite Hloop. simpl. split; [done |]. by rewrite Hcat.
Qed.

End ServerOnDisk.

(** * Admission: the exact criterion *)

Section AdmissionCriterion.

Import Server Concurrent.

Context {St : Type}.

Implicit Types (y : system (St := St)) (k : op).

Lemma run_inflight_count k t : ∀ y0 y log,
  run y0 t = Some (y, log) →
  (inflight y k + length (filter (λ x, x = (Return k, Released)) log)
   = inflight y0 k + length (filter (λ x, x = (Call k, Accepted)) log))%nat.
Proof.
  induction t as [|e t IH]; intros y0 y log; simpl.
  { intros [= <- <-]. simpl. lia. }
  destruct (step y0 e) as [[y1 v]|] eqn:Hstep; [| done].
  destruct (run y1 t) as [[y2 log2]|] eqn:Hrun; [| done].
  intros [= <- <-]. specialize (IH _ _ _ Hrun). rewrite !filter_cons.
  destruct e as [k' | k']; simpl in Hstep.
  - destruct (acquire k' (srv y0)); injection Hstep as <- <-; simpl in *;
      unfold bump in *; repeat case_decide; simplify_eq; simpl; lia.
  - destruct (inflight y0 k') as [|n] eqn:Hn; [done |].
    injection Hstep as <- <-; simpl in *;
      unfold bump in *; repeat case_decide; simplify_eq; simpl;
      rewrite ?Hn in *; simpl in *; lia.
Qed.

(** At any moment the number of running calls of a kind is the number of
    accepted arrivals minus the number of terminations of that kind so far;
    the next arrival is accepted exactly when that number is below the pool's
    capacity, whatever the load on the other two pools, and rejected exactly
    when it has reached the capacity. *)
Theorem admission_criterion (sto : St) t y log k :
  run (idle sto) t = Some (y, log) →
  (inflight y k + length (filter (λ x, x = (Return k, Released)) log)
   = length (filter (λ x, x = (Call k, Accepted)) log))%nat ∧
  ((∃ y', step y (Call k) = Some (y', Accepted))
     ↔ (inflight y k < capacity k)%nat) ∧
  ((∃ y', step y (Call k) = Some (y', Rejected))
     ↔ inflight y k = capacity k).
Proof.
  intros Hrun.
  assert (Hy : consistent y) by (eapply run_consistent, Hrun; apply idle_consistent).
  split; [apply (run_inflight_count k t _ _ _ Hrun) |].
  simpl. rewrite (acquire_consistent _ _ Hy).
  destruct (Hy k) as [_ Hle].
  destruct (Nat.ltb_spec (inflight y k) (capacity k)); split; split.
  - done.
  - eauto.
  - by intros [? [=]].
  - lia.
  - by intros [? [=]].
  - lia.
  - lia.
  - eauto.
Qed.

End AdmissionCriterion.

(** * Instances of the further conditional theorems *)

Lemma Sample_join_inj dir x y : Sample.join dir x = Sample.join dir y → x = y.
Proof.
  unfold Sample.join. intros H.
  apply (inj (String.append dir)) in H. by apply (inj (String.append "/")) in H.
Qed.

(** The blob saved at nanosecond 1 is still there after a save at nanosecond
    2 and a failed save at nanosecond 3. *)
Lemma SaveFile_blob_survives_witness :
  Storage.GetFile Sample.join "1"
    (Storage.SaveFiles Sample.join
       [(Sample.at_time 2 0, "b.txt", Sample.bye);
        ({| Storage.now_nano := 3;
            Storage.write := Storage.WriteFails Sample.disk_full (Some 1%nat);
            Storage.now_unix := 0 |}, "c.txt", Sample.bye)]
       (Sample.save 1 0 "a.txt" Sample.hello Sample.fresh)).2
  = Ok Sample.hello.
Proof.
  apply (SaveFile_blob_survives Sample.join (Sample.at_time 1 0) "a.txt"
           Sample.hello Sample.fresh "1").
  - intros a b Heq%Sample_join_inj. by apply (inj Sprintf_d).
  - vm_compute. reflexivity.
  - intros c Hc. repeat (apply elem_of_cons in Hc as [-> | Hc]); simpl;
      [lia | lia | by apply elem_of_nil in Hc].
Defined.

(** The five saves of the engine's listing test, one nanosecond apart. *)
Lemma SaveFiles_distinct_readings_witness :
  size (Storage.files (Storage.engine
    (Storage.SaveFiles Sample.join
       [(Sample.at_time 1 0, "test_image_0.png", Sample.hello);
        (Sample.at_time 2 0, "test_image_1.png", Sample.hello);
        (Sample.at_time 3 0, "test_image_2.png", Sample.hello);
        (Sample.at_time 4 0, "test_image_3.png", Sample.hello);
        (Sample.at_time 5 0, "test_image_4.png", Sample.hello)]
       Sample.fresh).2)) = 5%nat.
Proof.
  apply (SaveFiles_distinct_readings Sample.join "./storage" ∅
           [(Sample.at_time 1 0, "test_image_0.png", Sample.hello);
            (Sample.at_time 2 0, "test_image_1.png", Sample.hello);
            (Sample.at_time 3 0, "test_image_2.png", Sample.hello);
            (Sample.at_time 4 0, "test_image_3.png", Sample.hello);
            (Sample.at_time 5 0, "test_image_4.png", Sample.hello)]).
  - repeat constructor.
  - apply (bool_decide_unpack _). vm_compute. exact I.
Defined.

(** A write that fails after two bytes leaves "he" readable under id 7. *)
Lemma SaveFile_failure_leaves_readable_orphan_witness :
  Storage.GetFile Sample.join "7"
    (Storage.SaveFile Sample.join
       {| Storage.now_nano := 7;
          Storage.write := Storage.WriteFails Sample.disk_full (Some 2%nat);
          Storage.now_unix := 0 |} "a.txt" Sample.hello Sample.fresh).2
  = Ok [Byte.x68; Byte.x65].
Proof.
  apply (SaveFile_failure_leaves_readable_orphan Sample.join
           {| Storage.now_nano := 7;
              Storage.write := Storage.WriteFails Sample.disk_full (Some 2%nat);
              Storage.now_unix := 0 |}
           Sample.disk_full 2%nat "a.txt" Sample.hello Sample.fresh).
  reflexivity.
Defined.

(** Page 0 of size 2 over the two-entry catalog is empty. *)
Lemma ListFiles_empty_window_witness :
  Storage.ListFiles [("1", Sample.entry_a); ("2", Sample.entry_b)] 2 0
    (Storage.engine Sample.two_files) = Ok ([], 2).
Proof.
  apply (ListFiles_empty_window [("1", Sample.entry_a); ("2", Sample.entry_b)]
           2 0 (Storage.engine Sample.two_files)).
  - unfold is_int32. lia.
  - unfold is_int32. lia.
  - vm_compute. reflexivity.
  - right. left.
    replace (Z.of_nat (size (Storage.files (Storage.engine Sample.two_files))))
      with 2 by (vm_compute; reflexivity).
    lia.
Defined.

(** Page 2 of size 1 over the two-entry catalog holds one catalog entry. *)
Lemma ListFiles_page_sound_witness :
  len [Sample.entry_b] = Z.min 1 (2 - 1 * (2 - 1)) ∧
  ∃ k, Storage.files (Storage.engine Sample.two_files) !! k = Some Sample.entry_b.
Proof.
  destruct (ListFiles_page_sound [("1", Sample.entry_a); ("2", Sample.entry_b)]
              1 2 (Storage.engine Sample.two_files) [Sample.entry_b] 2)
    as (_ & Hin & _ & Hlen).
  - unfold Storage.iteration_of.
    replace (map_to_list (Storage.files (Storage.engine Sample.two_files)))
      with [("1", Sample.entry_a); ("2", Sample.entry_b)]
      by (vm_compute; reflexivity).
    reflexivity.
  - unfold is_int32. lia.
  - unfold is_int32. lia.
  - vm_compute. reflexivity.
  - vm_compute. reflexivity.
  - split; [apply Hlen; lia | apply Hin; left].
Defined.

(** The scenario of the specification: "hello" saved as a.txt, then page 1
    of size 10. *)
Lemma SaveFile_then_ListFiles_witness :
  Storage.ListFiles [("1", Sample.entry_a)] 10 1
    (Storage.engine (Sample.save 1 0 "a.txt" Sample.hello Sample.fresh))
  = Ok ([{| Id := "1"; Filename := "a.txt"; Size := to_int64 (len Sample.hello);
            CreatedAt := 0; UpdatedAt := 0 |}], 1).
Proof.
  apply (SaveFile_then_ListFiles Sample.join (Sample.at_time 1 0) "a.txt"
           Sample.hello "./storage" ∅ "1"
           (Sample.save 1 0 "a.txt" Sample.hello Sample.fresh)
           [("1", Sample.entry_a)] 10).
  - vm_compute. reflexivity.
  - unfold Storage.iteration_of.
    replace (map_to_list (Storage.files (Storage.engine
               (Sample.save 1 0 "a.txt" Sample.hello Sample.fresh))))
      with [("1", Sample.entry_a)] by (vm_compute; reflexivity).
    reflexivity.
  - lia.
  - unfold is_int32. lia.
Defined.

(** A second file-info message in the middle of the chunks changes neither
    the filename nor the bytes saved. *)
Lemma UploadFile_later_messages_witness :
  let r :=
    @Server.UploadFile _ _ (Main.disk_storage Sample.join)
      {| Server.up_storage :=
           {| Main.save := Sample.at_time 1 0; Main.order := [] |};
         Server.up_now := 0; Server.up_send := None |}
      (Main.main_server ∅)
      [Server.Msg (Request_Info {| InfoFilename := "a.txt";
                                   InfoContentType := "text/plain" |});
       Server.Msg (Request_ChunkData Sample.hello);
       Server.Msg (Request_Info {| InfoFilename := "other.txt";
                                   InfoContentType := "text/plain" |});
       Server.Msg (Request_ChunkData Sample.bye)] in
  Server.up_return r = Ok tt ∧
  Server.up_response r =
    Some {| RespId := "1"; RespFilename := "a.txt";
            RespSize := to_int64 (len (Sample.hello ++ [] ++ Sample.bye ++ []));
            RespCreatedAt := 0 |}.
Proof.
  destruct (UploadFile_later_messages (impl := Main.disk_storage Sample.join)
              {| Server.up_storage :=
                   {| Main.save := Sample.at_time 1 0; Main.order := [] |};
                 Server.up_now := 0; Server.up_send := None |}
              (Main.main_server ∅)
              (Some {| Server.cap := 10; Server.queued := 1 |})
              Sample.fresh
              {| InfoFilename := "a.txt"; InfoContentType := "text/plain" |}
              [Request_ChunkData Sample.hello;
               Request_Info {| InfoFilename := "other.txt";
                               InfoContentType := "text/plain" |};
               Request_ChunkData Sample.bye]
              "1"
              (Sample.save 1 0 "a.txt" (Sample.hello ++ Sample.bye) Sample.fresh))
    as (Hret & Hresp & _).
  - reflexivity.
  - reflexivity.
  - vm_compute. reflexivity.
  - reflexivity.
  - split; [exact Hret | exact Hresp].
Defined.

(** A stream that breaks after the first chunk: nothing is stored. *)
Lemma UploadFile_receive_error_witness :
  @Server.UploadFile _ _ Mock.mockStorage
    {| Server.up_storage :=
         {| Mock.ret_SaveFile := Ok "123"; Mock.ret_GetFile := Ok [];
            Mock.ret_ListFiles := Ok ([], 0) |};
       Server.up_now := 0; Server.up_send := None |}
    (Server.NewServer [])
    (Server.Msg (Request_Info {| InfoFilename := "test.jpg";
                                 InfoContentType := "image/jpeg" |})
     :: (Server.Msg <$> [Request_ChunkData Sample.hello])
     ++ Server.Fail (TransportError "reset") :: [])
  = {| Server.up_return := Err (TransportError "reset");
       Server.up_server := Server.NewServer [];
       Server.up_unread := [];
       Server.up_response := None |}.
Proof.
  destruct (UploadFile_receive_error (impl := Mock.mockStorage)
              {| Server.up_storage :=
                   {| Mock.ret_SaveFile := Ok "123"; Mock.ret_GetFile := Ok [];
                      Mock.ret_ListFiles := Ok ([], 0) |};
                 Server.up_now := 0; Server.up_send := None |}
              (Server.NewServer [])
              (Some {| Server.cap := 10; Server.queued := 1 |}) eq_refl)
    as (_ & _ & Hmid).
  apply (Hmid {| InfoFilename := "test.jpg"; InfoContentType := "image/jpeg" |}
           [Request_ChunkData Sample.hello] (TransportError "reset") []).
  reflexivity.
Defined.

(** The reply is lost after a successful save: the blob and the catalog entry
    remain. *)
Lemma UploadFile_reply_failure_keeps_file_witness :
  let r :=
    @Server.UploadFile _ _ (Main.disk_storage Sample.join)
      {| Server.up_storage :=
           {| Main.save := Sample.at_time 1 0; Main.order := [] |};
         Server.up_now := 0;
         Server.up_send := Some (TransportError "reset") |}
      (Main.main_server ∅)
      (Server.Msg (Request_Info {| InfoFilename := "a.txt";
                                   InfoContentType := "text/plain" |})
       :: (Server.Msg <$> [Request_ChunkData Sample.hello])) in
  Server.up_return r = Err (TransportError "reset") ∧
  Server.up_response r = None ∧
  Server.storage (Server.up_server r) =
    Some (Sample.save 1 0 "a.txt" (Sample.hello ++ []) Sample.fresh).
Proof.
  apply (UploadFile_reply_failure_keeps_file
           (impl := Main.disk_storage Sample.join)
           {| Server.up_storage :=
                {| Main.save := Sample.at_time 1 0; Main.order := [] |};
              Server.up_now := 0;
              Server.up_send := Some (TransportError "reset") |}
           (Main.main_server ∅)
           (Some {| Server.cap := 10; Server.queued := 1 |})
           Sample.fresh
           {| InfoFilename := "a.txt"; InfoContentType := "text/plain" |}
           [Request_ChunkData Sample.hello] "1"
           (Sample.save 1 0 "a.txt" (Sample.hello ++ []) Sample.fresh)
           (TransportError "reset")).
  - reflexivity.
  - reflexivity.
  - vm_compute. reflexivity.
  - reflexivity.
Defined.

(** The "file not found" case of the server test, on an empty disk. *)
Lemma DownloadFile_missing_blob_witness :
  let r :=
    @Server.DownloadFile _ _ (Main.disk_storage Sample.join)
      {| Server.down_storage :=
           {| Main.save := Sample.at_time 1 0; Main.order := [] |};
         Server.down_send := λ _, None |}
      (Main.main_server ∅) "456" in
  Server.down_return r = Err (StatusError NotFound "File not found") ∧
  Server.down_sent r = [].
Proof.
  apply (DownloadFile_missing_blob Sample.join
           {| Server.down_storage :=
                {| Main.save := Sample.at_time 1 0; Main.order := [] |};
              Server.down_send := λ _, None |}
           (Main.main_server ∅)
           (Some {| Server.cap := 10; Server.queued := 1 |})
           Sample.fresh "456").
  - reflexivity.
  - reflexivity.
  - vm_compute. reflexivity.
Defined.

(** An upload of "hello" and "bye" as a.txt: the response and the catalog
    entry agree. *)
Lemma UploadFile_response_matches_catalog_witness :
  ∃ resp st' m,
    Server.up_response
      (@Server.UploadFile _ _ (Main.disk_storage Sample.join)
         {| Server.up_storage :=
              {| Main.save := Sample.at_time 1 5; Main.order := [] |};
            Server.up_now := 6; Server.up_send := None |}
         (Main.main_server ∅)
         (Server.Msg (Request_Info {| InfoFilename := "a.txt";
                                      InfoContentType := "text/plain" |})
          :: ((λ c, Server.Msg (Request_ChunkData c))
                <$> [Sample.hello; Sample.bye]))) = Some resp ∧
    Storage.files (Storage.engine st') !! RespId resp = Some m ∧
    Filename m = RespFilename resp ∧ Size m = RespSize resp ∧
    CreatedAt m = 5 ∧ RespCreatedAt resp = 6.
Proof.
  destruct (UploadFile_response_matches_catalog Sample.join
              {| Server.up_storage :=
                   {| Main.save := Sample.at_time 1 5; Main.order := [] |};
                 Server.up_now := 6; Server.up_send := None |}
              (Main.main_server ∅)
              (Some {| Server.cap := 10; Server.queued := 1 |})
              Sample.fresh
              {| InfoFilename := "a.txt"; InfoContentType := "text/plain" |}
              [Sample.hello; Sample.bye])
    as (resp & st' & m & _ & Hresp & _ & Hm & _ & Hf & _ & Hs & _ & Hc & Hr).
  - reflexivity.
  - reflexivity.
  - reflexivity.
  - reflexivity.
  - exists resp, st', m. split; [exact Hresp |]. split; [exact Hm |].
    split; [exact Hf |]. split; [exact Hs |]. split; [exact Hc | exact Hr].
Defined.

(** "hello" and "bye" uploaded as two chunks come back as "hellobye". *)
Lemma upload_download_round_trip_witness :
  ∃ resp,
    Server.up_response
      (@Server.UploadFile _ _ (Main.disk_storage Sample.join)
         {| Server.up_storage :=
              {| Main.save := Sample.at_time 1 0; Main.order := [] |};
            Server.up_now := 0; Server.up_send := None |}
         (Main.main_server ∅)
         (Server.Msg (Request_Info {| InfoFilename := "a.txt";
                                      InfoContentType := "text/plain" |})
          :: ((λ c, Server.Msg (Request_ChunkData c))
                <$> [Sample.hello; Sample.bye]))) = Some resp ∧
    concat (Server.down_sent
      (@Server.DownloadFile _ _ (Main.disk_storage Sample.join)
         {| Server.down_storage :=
              {| Main.save := Sample.at_time 2 0; Main.order := [] |};
            Server.down_send := λ _, None |}
         (Server.up_server
            (@Server.UploadFile _ _ (Main.disk_storage Sample.join)
               {| Server.up_storage :=
                    {| Main.save := Sample.at_time 1 0; Main.order := [] |};
                  Server.up_now := 0; Server.up_send := None |}
               (Main.main_server ∅)
               (Server.Msg (Request_Info {| InfoFilename := "a.txt";
                                            InfoContentType := "text/plain" |})
                :: ((λ c, Server.Msg (Request_ChunkData c))
                      <$> [Sample.hello; Sample.bye]))))
         (RespId resp)))
    = concat [Sample.hello; Sample.bye].
Proof.
  destruct (upload_download_round_trip Sample.join
              {| Server.up_storage :=
                   {| Main.save := Sample.at_time 1 0; Main.order := [] |};
                 Server.up_now := 0; Server.up_send := None |}
              {| Server.down_storage :=
                   {| Main.save := Sample.at_time 2 0; Main.order := [] |};
                 Server.down_send := λ _, None |}
              (Main.main_server ∅)
              (Some {| Server.cap := 10; Server.queued := 1 |})
              (Some {| Server.cap := 10; Server.queued := 1 |})
              Sample.fresh
              {| InfoFilename := "a.txt"; InfoContentType := "text/plain" |}
              [Sample.hello; Sample.bye])
    as (resp & _ & Hresp & _ & Hcat).
  - reflexivity.
  - reflexivity.
  - reflexivity.
  - reflexivity.
  - reflexivity.
  - intros k. reflexivity.
  - exists resp. split; [exact Hresp | exact Hcat].
Defined.

(** Ten running uploads fill the upload pool; downloads are still accepted. *)
Lemma admission_criterion_witness :
  ∃ y log,
    Concurrent.run (Concurrent.idle tt)
      (replicate 10 (Concurrent.Call Concurrent.Upload)) = Some (y, log) ∧
    Concurrent.inflight y Concurrent.Upload = Concurrent.capacity Concurrent.Upload ∧
    (∃ y', Concurrent.step y (Concurrent.Call Concurrent.Upload)
             = Some (y', Concurrent.Rejected)) ∧
    (∃ y', Concurrent.step y (Concurrent.Call Concurrent.Download)
             = Some (y', Concurrent.Accepted)).
Proof.
  destruct (Concurrent.run (Concurrent.idle tt)
              (replicate 10 (Concurrent.Call Concurrent.Upload)))
    as [[y log]|] eqn:Hrun; [| vm_compute in Hrun; discriminate].
  exists y, log. split; [reflexivity |].
  assert (Hup : Concurrent.inflight y Concurrent.Upload = 10%nat
                ∧ Concurrent.inflight y Concurrent.Download = 0%nat).
  { vm_compute in Hrun. injection Hrun as <- _. split; reflexivity. }
  destruct Hup as [Hup Hdown].
  destruct (admission_criterion tt _ y log Concurrent.Upload Hrun)
    as (_ & _ & Hrej).
  destruct (admission_criterion tt _ y log Concurrent.Download Hrun)
    as (_ & Hacc & _).
  split; [exact Hup |]. split.
  - apply Hrej. exact Hup.
  - apply Hacc. rewrite Hdown. vm_compute. lia.
Defined.
